(** * FFChart: the chart component of FFCreator (src/lib/node/chart.js)

    A shallow embedding of the frame bridge ([update], [updateNow], [start],
    [updateCallback], [echartsUpdate], [destroy]) and of the clock override
    that [fixZrender] installs on the chart engine's animation driver.

    JavaScript numbers are IEEE-754 binary64 values: they are modelled by
    Rocq's primitive floats, whose operations the kernel evaluates with the
    same rounding.  Objects that the code mutates in place (the clips of the
    driver's linked list) live in a store indexed by references.  Method
    bodies are written in a state-and-exception monad over the [World]; a
    thrown exception keeps the mutations made before it, as in JavaScript. *)

From Stdlib Require Import PrimFloat.
From stdpp Require Import gmap list strings.

Set Warnings "-inexact-float,-clear-no-such-hyp".
Set Default Proof Using "Type".

(* ================================================================== *)
(** * Part I: the model *)
(* ================================================================== *)

(** ** Numbers *)

Abbreviation number := float (only parsing).

(** [a < b] and [a >= b] on numbers; both are false when an operand is NaN. *)
Definition js_lt (a b : number) : bool := PrimFloat.ltb a b.
Definition js_ge (a b : number) : bool := PrimFloat.leb b a.

(** ToNumber on a slot that holds [null] or a number: [null] converts to 0. *)
Definition to_number (v : option number) : number :=
  match v with
  | Some x => x
  | None => 0%float
  end.

(** Truthiness of an optional boolean argument ([undefined] is falsy). *)
Definition truthy (v : option bool) : bool :=
  match v with
  | Some b => b
  | None => false
  end.

(** ** Exceptions and outcomes *)

Inductive error :=
| TypeError (msg : string)
| UserError (msg : string).

(** Outcome of a call: normal return, thrown exception, or a loop that
    never ends. *)
Inductive result (A : Type) :=
| Ok (a : A)
| Throw (e : error)
| Diverge.
Arguments Ok {A} a.
Arguments Throw {A} e.
Arguments Diverge {A}.

(** ** The chart engine: clips and the animation driver *)

(** A clip of the engine: [clip.step(time, delta)] updates the clip's own
    state and tells whether the clip has finished. *)
Class ClipIface := {
  ClipState : Type;
  clip_step : ClipState → number → number → ClipState * bool
}.

(** References to clip objects. *)
Abbreviation ptr := nat (only parsing).

(** Values of a slot that holds a reference: [undefined], [null] or an
    object. *)
Inductive jsref := Undefined | Null | Ref.

(** A method slot of the driver: the engine's own implementation, or the
    closure installed by [fixZrender]. *)
Inductive impl := Native | Patched.

(** The own property [updateCallback] of the component: absent (the
    prototype method is seen), the bound function, or [null]. *)
Inductive method_slot := ProtoMethod | BoundMethod | NullMethod.

(** Observable calls, in program order. *)
Inductive event :=
| EvClipStep (c : ptr) (time delta : number)  (* clip.step(time, delta) *)
| EvClipOndestroy (c : ptr)                   (* clip.ondestroy() *)
| EvRemoveClip (c : ptr)                      (* this.removeClip(clip) *)
| EvOnframe (delta : number)                  (* this.onframe(delta) *)
| EvTrigger (name : string) (delta : number)  (* this.trigger(name, delta) *)
| EvStageUpdate                               (* this.stage.update() *)
| EvUserCallback (acc : number)               (* this.userCallback(chart), with
                                                 the value of this.time at the call *)
| EvExt (name : string).                      (* any other external call *)

Section Model.
Context `{CI : ClipIface}.

Record Clip := mkClip {
  clip_state : ClipState;
  clip_next : option ptr;
  clip_prev : option ptr;
  clip_animation : bool;     (* clip.animation is set: the clip is linked *)
  clip_ondestroy : bool      (* the clip has an ondestroy hook *)
}.

(** [chart._zr.animation]; [clips] is the store of the clip objects. *)
Record Animation := mkAnimation {
  _running : bool;
  _paused : bool;
  _clipsHead : option ptr;
  _clipsTail : option ptr;
  clips : gmap ptr Clip;
  stage_update : bool;       (* this.stage.update is defined *)
  _startLoop : impl;
  update_impl : impl
}.

Record Chart := mkChart {
  _zr_animation : Animation;
  disposed : bool
}.

(** A user callback receives the chart and may mutate it or throw. *)
Definition UserFn : Type := Chart → Chart * result unit.

Record Conf := mkConf {
  conf_option : jsref;
  conf_optionOpts : jsref;
  conf_theme : option string;
  conf_updateNow : option bool
}.

(** The fields of an FFChart instance. *)
Record FFChart := mkFFChart {
  theme : string;
  option_ : jsref;
  runUpdateNow : bool;
  optionOpts : jsref;
  userCallback : option UserFn;
  userCallbackTime : option number;
  time : number;
  ctx : jsref;
  chart : jsref;
  canvas : jsref;
  updateCallback_slot : method_slot
}.

(** The ambient clock of the host timeline. *)
Record Timeline := mkTimeline {
  tl_time : number;
  tl_delta : number
}.

Record World := mkWorld {
  this : FFChart;
  engine : option Chart;        (* the chart object made by echarts.init *)
  TimelineUpdate : Timeline;
  trace : list event
}.

(** *** Field updates *)

Definition set_state (s : ClipState) (c : Clip) : Clip :=
  mkClip s (clip_next c) (clip_prev c) (clip_animation c) (clip_ondestroy c).
Definition set_next (n : option ptr) (c : Clip) : Clip :=
  mkClip (clip_state c) n (clip_prev c) (clip_animation c) (clip_ondestroy c).
Definition set_prev (p : option ptr) (c : Clip) : Clip :=
  mkClip (clip_state c) (clip_next c) p (clip_animation c) (clip_ondestroy c).
(** [clip.next = clip.prev = clip.animation = null] *)
Definition detach (c : Clip) : Clip :=
  mkClip (clip_state c) None None false (clip_ondestroy c).

Definition set_running (b : bool) (a : Animation) : Animation :=
  mkAnimation b (_paused a) (_clipsHead a) (_clipsTail a) (clips a)
    (stage_update a) (_startLoop a) (update_impl a).
Definition set_clipsHead (h : option ptr) (a : Animation) : Animation :=
  mkAnimation (_running a) (_paused a) h (_clipsTail a) (clips a)
    (stage_update a) (_startLoop a) (update_impl a).
Definition set_clipsTail (t : option ptr) (a : Animation) : Animation :=
  mkAnimation (_running a) (_paused a) (_clipsHead a) t (clips a)
    (stage_update a) (_startLoop a) (update_impl a).
Definition set_clips (h : gmap ptr Clip) (a : Animation) : Animation :=
  mkAnimation (_running a) (_paused a) (_clipsHead a) (_clipsTail a) h
    (stage_update a) (_startLoop a) (update_impl a).
Definition set_startLoop (i : impl) (a : Animation) : Animation :=
  mkAnimation (_running a) (_paused a) (_clipsHead a) (_clipsTail a) (clips a)
    (stage_update a) i (update_impl a).
Definition set_update (i : impl) (a : Animation) : Animation :=
  mkAnimation (_running a) (_paused a) (_clipsHead a) (_clipsTail a) (clips a)
    (stage_update a) (_startLoop a) i.

Definition set_animation (a : Animation) (c : Chart) : Chart :=
  mkChart a (disposed c).
Definition set_disposed (b : bool) (c : Chart) : Chart :=
  mkChart (_zr_animation c) b.

Definition set_option (v : jsref) (t : FFChart) : FFChart :=
  mkFFChart (theme t) v (runUpdateNow t) (optionOpts t) (userCallback t)
    (userCallbackTime t) (time t) (ctx t) (chart t) (canvas t)
    (updateCallback_slot t).
Definition set_runUpdateNow (v : bool) (t : FFChart) : FFChart :=
  mkFFChart (theme t) (option_ t) v (optionOpts t) (userCallback t)
    (userCallbackTime t) (time t) (ctx t) (chart t) (canvas t)
    (updateCallback_slot t).
Definition set_optionOpts (v : jsref) (t : FFChart) : FFChart :=
  mkFFChart (theme t) (option_ t) (runUpdateNow t) v (userCallback t)
    (userCallbackTime t) (time t) (ctx t) (chart t) (canvas t)
    (updateCallback_slot t).
Definition set_userCallback (v : option UserFn) (t : FFChart) : FFChart :=
  mkFFChart (theme t) (option_ t) (runUpdateNow t) (optionOpts t) v
    (userCallbackTime t) (time t) (ctx t) (chart t) (canvas t)
    (updateCallback_slot t).
Definition set_userCallbackTime (v : option number) (t : FFChart) : FFChart :=
  mkFFChart (theme t) (option_ t) (runUpdateNow t) (optionOpts t)
    (userCallback t) v (time t) (ctx t) (chart t) (canvas t)
    (updateCallback_slot t).
Definition set_time (v : number) (t : FFChart) : FFChart :=
  mkFFChart (theme t) (option_ t) (runUpdateNow t) (optionOpts t)
    (userCallback t) (userCallbackTime t) v (ctx t) (chart t) (canvas t)
    (updateCallback_slot t).
Definition set_ctx (v : jsref) (t : FFChart) : FFChart :=
  mkFFChart (theme t) (option_ t) (runUpdateNow t) (optionOpts t)
    (userCallback t) (userCallbackTime t) (time t) v (chart t) (canvas t)
    (updateCallback_slot t).
Definition set_chart (v : jsref) (t : FFChart) : FFChart :=
  mkFFChart (theme t) (option_ t) (runUpdateNow t) (optionOpts t)
    (userCallback t) (userCallbackTime t) (time t) (ctx t) v (canvas t)
    (updateCallback_slot t).
Definition set_canvas (v : jsref) (t : FFChart) : FFChart :=
  mkFFChart (theme t) (option_ t) (runUpdateNow t) (optionOpts t)
    (userCallback t) (userCallbackTime t) (time t) (ctx t) (chart t) v
    (updateCallback_slot t).
Definition set_updateCallback (v : method_slot) (t : FFChart) : FFChart :=
  mkFFChart (theme t) (option_ t) (runUpdateNow t) (optionOpts t)
    (userCallback t) (userCallbackTime t) (time t) (ctx t) (chart t) (canvas
    t) v.

Definition set_this (t : FFChart) (w : World) : World :=
  mkWorld t (engine w) (TimelineUpdate w) (trace w).
Definition set_engine (e : option Chart) (w : World) : World :=
  mkWorld (this w) e (TimelineUpdate w) (trace w).
Definition set_timeline (tl : Timeline) (w : World) : World :=
  mkWorld (this w) (engine w) tl (trace w).
Definition set_trace (tr : list event) (w : World) : World :=
  mkWorld (this w) (engine w) (TimelineUpdate w) tr.

(** ** The monad of method bodies *)

Definition M (A : Type) : Type := World → World * result A.

Definition ret {A} (a : A) : M A := λ w, (w, Ok a).
Definition bind {A B} (m : M A) (k : A → M B) : M B :=
  λ w, match m w with
       | (w', Ok a) => k a w'
       | (w', Throw e) => (w', Throw e)
       | (w', Diverge) => (w', Diverge)
       end.
Definition throw {A} (e : error) : M A := λ w, (w, Throw e).
Definition diverge {A} : M A := λ w, (w, Diverge).
(** Finishing with a given outcome. *)
Definition finish {A} (r : result A) : M A := λ w, (w, r).
Definition gets {A} (f : World → A) : M A := λ w, (w, Ok (f w)).
Definition modify (f : World → World) : M unit := λ w, (f w, Ok tt).

#[export] Instance M_ret : MRet M := @ret.
#[export] Instance M_bind : MBind M := λ A B k m, bind m k.
#[export] Instance M_fmap : FMap M := λ A B f m, bind m (λ a, ret (f a)).

Definition emit (e : event) : M unit :=
  modify (λ w, set_trace (trace w ++ [e]) w).

Definition modify_this (f : FFChart → FFChart) : M unit :=
  modify (λ w, set_this (f (this w)) w).

(** Reading a property of [null] or [undefined]. *)
Definition cannot_read (of_ : jsref) (prop : string) : error :=
  TypeError ("Cannot read properties of " +:+
             match of_ with Null => "null" | _ => "undefined" end +:+
             " (reading '" +:+ prop +:+ "')").

(** ** The animation driver *)

(** [chart._zr.animation] of the chart object of the world. *)
Definition get_animation : M Animation :=
  e ← gets engine;
  match e with
  | Some ch => ret (_zr_animation ch)
  | None => throw (cannot_read Undefined "_zr")
  end.

Definition upd_animation (f : Animation → Animation) : M unit :=
  modify (λ w, set_engine
                 ((λ ch, set_animation (f (_zr_animation ch)) ch) <$> engine w) w).

Definition read_clip (c : ptr) : M Clip :=
  a ← get_animation;
  match clips a !! c with
  | Some cl => ret cl
  | None => throw (cannot_read Undefined "next")
  end.

Definition upd_clip (c : ptr) (f : Clip → Clip) : M unit :=
  _ ← read_clip c;
  upd_animation (λ a, set_clips (alter f c (clips a)) a).

(** [clip.step(time, delta)] *)
Definition step_clip (c : ptr) (time delta : number) : M bool :=
  cl ← read_clip c;
  emit (EvClipStep c time delta);;
  let '(st, finished) := clip_step (clip_state cl) time delta in
  upd_clip c (set_state st);;
  ret finished.

(** Modelled from the spec: [this.removeClip(clip)] is the engine's own
    method and is not among the sources.  It unlinks the clip from the
    driver's sequence and clears the clip's own links, which invalidates the
    clip's successor pointer; the engine keeps the sequence doubly linked,
    with a tail pointer, to do so. *)
Definition removeClip (clip : ptr) : M unit :=
  emit (EvRemoveClip clip);;
  cl ← read_clip clip;
  if negb (clip_animation cl) then ret tt
  else
    let prev := clip_prev cl in
    let next := clip_next cl in
    match prev with
    | Some p => upd_clip p (set_next next)
    | None => upd_animation (set_clipsHead next)
    end;;
    match next with
    | Some n => upd_clip n (set_prev prev)
    | None => upd_animation (set_clipsTail prev)
    end;;
    upd_clip clip detach.

(** The [while (clip)] loop of the installed [update].  [fuel] bounds the
    number of iterations; running out of it stands for a loop that does not
    end. *)
Fixpoint update_loop (fuel : nat) (time delta : number) (clip : option ptr)
  : M unit :=
  match clip with
  | None => ret tt
  | Some c =>
    match fuel with
    | O => diverge
    | S fuel' =>
      nextClip ← clip_next <$> read_clip c;
      finished ← step_clip c time delta;
      if finished : bool then
        hook ← clip_ondestroy <$> read_clip c;
        (if hook : bool then emit (EvClipOndestroy c) else ret tt);;
        removeClip c;;
        update_loop fuel' time delta nextClip
      else
        update_loop fuel' time delta nextClip
    end
  end.

(** The function that [fixZrender] assigns to [animation.update].  The loop
    gets as many iterations as there are clip objects: a traversal that
    needs more has entered a cycle and never ends.  The three notifications
    [onframe], [trigger] and [stage.update] are calls into the engine and
    its listeners; they are recorded, and what they do to the driver is not
    part of the model. *)
Definition patched_update (notTriggerFrameAndStageUpdate : option bool)
  : M unit :=
  time ← gets (λ w, tl_time (TimelineUpdate w));
  delta ← gets (λ w, tl_delta (TimelineUpdate w));
  a ← get_animation;
  update_loop (size (clips a)) time delta (_clipsHead a);;
  if negb (truthy notTriggerFrameAndStageUpdate) then
    emit (EvOnframe delta);;
    emit (EvTrigger "frame" delta);;
    a' ← get_animation;
    if stage_update a' then emit EvStageUpdate else ret tt
  else ret tt.

(** [animation.update(arg)]: the method found in the slot is called.  The
    engine's own method reads the wall clock; it is only recorded. *)
Definition animation_update (arg : option bool) : M unit :=
  a ← get_animation;
  match update_impl a with
  | Patched => patched_update arg
  | Native => emit (EvExt "Animation.prototype.update")
  end.

(** [animation._startLoop()]: the installed closure only sets [_running];
    the engine's own method also schedules its timer. *)
Definition animation_startLoop : M unit :=
  a ← get_animation;
  match _startLoop a with
  | Patched => upd_animation (set_running true)
  | Native =>
      upd_animation (set_running true);;
      emit (EvExt "requestAnimationFrame")
  end.

(** [fixZrender(chart)] *)
Definition fixZrender : M unit :=
  _ ← get_animation;
  upd_animation (set_startLoop Patched);;
  upd_animation (set_update Patched).

(** ** The FFChart component *)

(** The chart library: [echarts_chart theme] is the animation driver of the
    chart that [echarts.init(canvas, theme)] followed by
    [chart.setOption(option, optionOpts)] yields. *)
Class EchartsLib := {
  echarts_chart : string → Animation
}.
Context `{EL : EchartsLib}.

(** [constructor(conf)]; [ctx], [chart] and [canvas] are not assigned before
    [start()]. *)
Definition constructor (conf : Conf) : FFChart :=
  {| theme := default "light" (conf_theme conf);
     option_ := conf_option conf;
     runUpdateNow := default false (conf_updateNow conf);
     optionOpts := conf_optionOpts conf;
     userCallback := None;
     userCallbackTime := None;
     time := 0%float;
     ctx := Undefined;
     chart := Undefined;
     canvas := Undefined;
     updateCallback_slot := ProtoMethod |}.

Definition new_world (conf : Conf) : World :=
  {| this := constructor conf;
     engine := None;
     TimelineUpdate := mkTimeline 0%float 0%float;
     trace := [] |}.

(** [update(func, time = 0.3)] *)
Definition update (func : UserFn) (time : option number) : M unit :=
  let time := default 0.3%float time in
  modify_this (set_userCallback (Some func));;
  modify_this (set_userCallbackTime
                 (Some (if js_lt time 50 then (time * 1000)%float else time))).

(** [updateNow()] *)
Definition updateNow : M unit :=
  modify_this (set_runUpdateNow true).

(** [this.userCallback(chart)]; the chart is an object wherever the source
    makes this call. *)
Definition call_userCallback : M unit :=
  f ← gets (λ w, userCallback (this w));
  match f with
  | None => throw (TypeError "this.userCallback is not a function")
  | Some cb =>
      acc ← gets (λ w, time (this w));
      emit (EvUserCallback acc);;
      e ← gets engine;
      match e with
      | Some ch =>
          let '(ch', r) := cb ch in
          modify (set_engine (Some ch'));;
          finish r
      | None => throw (cannot_read Undefined "setOption")
      end
  end.

(** [initECahrts()] on a bridge that was not torn down: [getWH()] reads the
    width and height of [this.conf], which the parent constructor has set,
    and [chart.setOption(option, optionOpts)] is taken to return. *)
Definition initECahrts : M unit :=
  emit (EvExt "createCanvas");;
  emit (EvExt "echarts.setCanvasCreator");;
  th ← gets (λ w, theme (this w));
  emit (EvExt "createCanvas");;
  emit (EvExt "echarts.init");;
  modify (set_engine (Some (mkChart (echarts_chart th) false)));;
  emit (EvExt "chart.setOption");;
  fixZrender;;
  modify_this (set_ctx Ref);;
  modify_this (set_chart Ref);;
  modify_this (set_canvas Ref).

Definition initTexture : M unit :=
  emit (EvExt "display.scale.clone");;
  emit (EvExt "Texture.fromCanvas");;
  emit (EvExt "setDisplaySize");;
  emit (EvExt "display.scale.copy");;
  emit (EvExt "display.setScaleToInit").

(** [echartsUpdate(chart, time, delta)] *)
Definition echartsUpdate (chart : jsref) (time delta : number) : M unit :=
  match chart with
  | Ref =>
      animation ← get_animation;
      if _running animation && negb (_paused animation)
      then animation_update None
      else ret tt
  | _ => throw (cannot_read chart "_zr")
  end.

(** [updateCallback(time, delta)] *)
Definition updateCallback (time_ delta : number) : M unit :=
  chart ← gets (λ w, chart (this w));
  userCallbackTime ← gets (λ w, userCallbackTime (this w));
  cb ← gets (λ w, userCallback (this w));
  match cb with
  | None => ret tt
  | Some _ =>
      echartsUpdate chart time_ delta;;
      modify_this (λ t, set_time (time t + delta)%float t);;
      now ← gets (λ w, time (this w));
      if js_ge now (to_number userCallbackTime) then
        call_userCallback;;
        modify_this (set_time 0%float)
      else ret tt
  end.

(** [start()] *)
Definition start : M unit :=
  initECahrts;;
  initTexture;;
  emit (EvExt "animations.start");;
  slot ← gets (λ w, updateCallback_slot (this w));
  match slot with
  | NullMethod => throw (cannot_read Null "bind")
  | _ => modify_this (set_updateCallback BoundMethod)
  end;;
  emit (EvExt "TimelineUpdate.addFrameCallback");;
  now ← gets (λ w, runUpdateNow (this w));
  if now : bool then call_userCallback else ret tt.

(** [start()], with all it does before [this.updateCallback.bind(this)] as
    the parameter [init]: [initECahrts()], [initTexture()] and
    [animations.start()] call into the chart library, the canvas and the
    parent class, and how far they get on a bridge that was torn down
    depends on those. *)
Definition start_with (init : M unit) : M unit :=
  init;;
  slot ← gets (λ w, updateCallback_slot (this w));
  match slot with
  | NullMethod => throw (cannot_read Null "bind")
  | _ => modify_this (set_updateCallback BoundMethod)
  end;;
  emit (EvExt "TimelineUpdate.addFrameCallback");;
  now ← gets (λ w, runUpdateNow (this w));
  if now : bool then call_userCallback else ret tt.

(** The initialisation of [start()] as this model has it. *)
Definition start_init : M unit :=
  initECahrts;;
  initTexture;;
  emit (EvExt "animations.start").

(** [this.chart.dispose()] *)
Definition chart_dispose : M unit :=
  c ← gets (λ w, chart (this w));
  match c with
  | Ref =>
      _ ← get_animation;
      emit (EvExt "chart.dispose");;
      modify (λ w, set_engine (set_disposed true <$> engine w) w)
  | _ => throw (cannot_read c "dispose")
  end.

(** [destroy()].  The parent class is not among the sources: what
    [super.destroy()] does, and whether it returns, is the parameter
    [parent]. *)
Definition destroy_with (parent : M unit) : M unit :=
  emit (EvExt "TimelineUpdate.removeFrameCallback");;
  parent;;
  chart_dispose;;
  modify_this (set_userCallback None);;
  modify_this (set_updateCallback NullMethod);;
  modify_this (set_userCallbackTime None);;
  modify_this (set_canvas Null);;
  modify_this (set_option Null);;
  modify_this (set_optionOpts Null);;
  modify_this (set_chart Null);;
  modify_this (set_ctx Null).

(** [destroy()] with a parent teardown that returns and leaves the fields
    of this class alone, as it does on a started bridge; the call is only
    recorded. *)
Definition destroy : M unit :=
  destroy_with (emit (EvExt "super.destroy")).

(** ** Well-formed clip sequences *)

(** The links of a clip object: [(prev, next, animation)]. *)
Definition links (h : gmap ptr Clip) (c : ptr)
  : option (option ptr * option ptr * bool) :=
  (λ cl, (clip_prev cl, clip_next cl, clip_animation cl)) <$> h !! c.

(** What a clip does when stepped: its state and whether it has a hook. *)
Definition behaviour (h : gmap ptr Clip) (c : ptr)
  : option (ClipState * bool) :=
  (λ cl, (clip_state cl, clip_ondestroy cl)) <$> h !! c.

Definition prev_of (l : list ptr) (i : nat) : option ptr :=
  match i with
  | O => None
  | S j => l !! j
  end.

(** The store links the clips of [l], in this order, into a doubly linked
    sequence of distinct clips. *)
Definition linked (h : gmap ptr Clip) (l : list ptr) : Prop :=
  NoDup l ∧
  ∀ i c, l !! i = Some c → links h c = Some (prev_of l i, l !! S i, true).

(** The driver's clip sequence is [l]. *)
Definition clip_list (a : Animation) (l : list ptr) : Prop :=
  _clipsHead a = head l ∧ _clipsTail a = last l ∧ linked (clips a) l.

(** Whether stepping clip [c] of store [h] at [(time, delta)] finishes it. *)
Definition finishes (h : gmap ptr Clip) (time delta : number) (c : ptr)
  : bool :=
  match behaviour h c with
  | Some (st, _) => (clip_step st time delta).2
  | None => false
  end.

(** The calls one loop iteration makes for clip [c]. *)
Definition clip_events (h : gmap ptr Clip) (time delta : number) (c : ptr)
  : list event :=
  match behaviour h c with
  | Some (st, hook) =>
      EvClipStep c time delta ::
      (if (clip_step st time delta).2
       then (if hook then [EvClipOndestroy c] else []) ++ [EvRemoveClip c]
       else [])
  | None => []
  end.

(** The clips of [l] that a step at [(time, delta)] does not finish. *)
Definition kept (h : gmap ptr Clip) (time delta : number) (l : list ptr)
  : list ptr :=
  List.filter (λ c, negb (finishes h time delta c)) l.

(** The calls made after the traversal. *)
Definition frame_events (notTrigger : option bool) (delta : number)
  (stage : bool) : list event :=
  if negb (truthy notTrigger) then
    [EvOnframe delta; EvTrigger "frame" delta] ++
    (if stage then [EvStageUpdate] else [])
  else [].

(** The store after clip [c], whose links are [prev] and [next], has been
    unlinked. *)
Definition opt_alter (f : Clip → Clip) (o : option ptr) (h : gmap ptr Clip)
  : gmap ptr Clip :=
  match o with
  | Some x => alter f x h
  | None => h
  end.
Definition unlinked (prev next : option ptr) (c : ptr) (h : gmap ptr Clip)
  : gmap ptr Clip :=
  alter detach c
    (opt_alter (set_prev prev) next (opt_alter (set_next next) prev h)).

(** What the store looks like once the clips of [l2] have been stepped at
    [(time, delta)], starting from the store [h] that links [l1 ++ l2]. *)
Definition stepped_store (h h' : gmap ptr Clip) (time delta : number)
  (l1 l2 : list ptr) : Prop :=
  linked h' (l1 ++ kept h time delta l2)
  ∧ (∀ x, x ∉ l1 ++ l2 → h' !! x = h !! x)
  ∧ (∀ x, x ∉ l2 → behaviour h' x = behaviour h x)
  ∧ (∀ x, x ∈ l2 →
       behaviour h' x =
       (λ b, ((clip_step b.1 time delta).1, b.2)) <$> behaviour h x)
  ∧ (∀ x, x ∈ l2 → finishes h time delta x = true →
       links h' x = Some (None, None, false)).

(** The driver's flags and method slots are those of [a]. *)
Definition same_flags (a a' : Animation) : Prop :=
  _running a' = _running a
  ∧ _paused a' = _paused a
  ∧ stage_update a' = stage_update a
  ∧ _startLoop a' = _startLoop a
  ∧ update_impl a' = update_impl a.

(** The events added to the trace between two worlds. *)
Definition new_events (w w' : World) : list event :=
  drop (length (trace w)) (trace w').

(** A chart whose driver has the override installed and a well-formed clip
    sequence. *)
Definition engine_ok (ch : Chart) : Prop :=
  update_impl (_zr_animation ch) = Patched
  ∧ ∃ l, clip_list (_zr_animation ch) l.


(** ** The accumulator, as the spec describes it *)



(** The world of a bridge whose chart exists, and the driver whose clip
    sequence is [l]. *)
Definition world_of (t : FFChart) (a : Animation) (dsp : bool)
  (tl : Timeline) (tr : list event) : World :=
  mkWorld t (Some (mkChart a dsp)) tl tr.
Definition anim_of (r p : bool) (l : list ptr) (h : gmap ptr Clip)
  (su : bool) (sl up : impl) : Animation :=
  mkAnimation r p (head l) (last l) h su sl up.

(** ** Reading traces *)

Definition is_user_callback (e : event) : bool :=
  match e with EvUserCallback _ => true | _ => false end.
Definition is_clip_step (e : event) : bool :=
  match e with EvClipStep _ _ _ => true | _ => false end.
Definition is_frame_notice (e : event) : bool :=
  match e with
  | EvOnframe _ | EvTrigger _ _ | EvStageUpdate => true
  | _ => false
  end.

(** The accumulator values seen by the callback, in call order. *)
Definition fires (tr : list event) : list number :=
  omap (λ e, match e with EvUserCallback acc => Some acc | _ => None end) tr.

(** The clips stepped, in call order. *)
Definition stepped (tr : list event) : list ptr :=
  omap (λ e, match e with EvClipStep c _ _ => Some c | _ => None end) tr.

(** The external calls [start()] makes before it subscribes the handler. *)
Definition start_events : list event :=
  [EvExt "createCanvas"; EvExt "echarts.setCanvasCreator";
   EvExt "createCanvas"; EvExt "echarts.init"; EvExt "chart.setOption";
   EvExt "display.scale.clone"; EvExt "Texture.fromCanvas";
   EvExt "setDisplaySize"; EvExt "display.scale.copy";
   EvExt "display.setScaleToInit"; EvExt "animations.start"].

(** The external calls [destroy()] makes before it disposes the chart. *)
Definition destroy_prefix : list event :=
  [EvExt "TimelineUpdate.removeFrameCallback"; EvExt "super.destroy"].

(** The driver once [fixZrender] has replaced its two methods. *)
Definition overridden (a : Animation) : Animation :=
  set_update Patched (set_startLoop Patched a).

(** ** The host timeline *)

(** Modelled from the spec: the host timeline (lib/timeline/update is not
    among the sources).  Once per frame it exposes the frame's [time] and
    [delta] as ambient state and invokes the subscribed handler with them;
    an exception thrown by the handler ends the delivery. *)
Fixpoint deliver (handler : number → number → M unit)
  (ticks : list (number * number)) : M unit :=
  match ticks with
  | [] => ret tt
  | (t, d) :: rest =>
      modify (set_timeline (mkTimeline t d));;
      handler t d;;
      deliver handler rest
  end.


(** ** Setting options *)

(** [Object.assign(target, ...sources)] on objects seen as maps from keys to
    values: the own properties of each source that is an object are copied
    onto the target, later sources overwriting earlier ones; a source that
    is [undefined] or [null] is skipped. *)
Definition object_assign {V} (target : gmap string V)
  (sources : list (option (gmap string V))) : gmap string V :=
  foldl (λ acc src, match src with Some o => o ∪ acc | None => acc end)
        target sources.

(** [Object.assign({}, optionOpts, opts)], the options that [setOption]
    hands to the chart. *)
Definition newOpts {V} (optionOpts opts : option (gmap string V))
  : gmap string V :=
  object_assign ∅ [optionOpts; opts].

(** [chart.setOption(option, newOpts)] is the chart library's method: what
    it does to the chart is a parameter. *)
Class ChartApi := {
  chart_setOption : Chart → Chart * result unit
}.
Context `{CA : ChartApi}.

(** [setOption(option, opts)] *)
Definition setOption : M unit :=
  c ← gets (λ w, chart (this w));
  match c with
  | Ref =>
      emit (EvExt "chart.setOption");;
      e ← gets engine;
      match e with
      | Some ch =>
          let '(ch', r) := chart_setOption ch in
          modify (set_engine (Some ch'));;
          finish r
      | None => throw (cannot_read Undefined "setOption")
      end
  | _ => throw (cannot_read c "setOption")
  end.

(** ** Sequences of calls *)

(** The calls a user and the host timeline make on the component. *)
Inductive api :=
| ApiUpdate (func : UserFn) (time : option number)
| ApiUpdateNow
| ApiStart
| ApiDestroy
| ApiTick (time delta : number).

Definition call (c : api) : M unit :=
  match c with
  | ApiUpdate func time => update func time
  | ApiUpdateNow => updateNow
  | ApiStart => start
  | ApiDestroy => destroy
  | ApiTick t d => deliver updateCallback [(t, d)]
  end.

(** The world after a sequence of calls, made one after the other whether
    or not an earlier one threw. *)
Definition run_api (cs : list api) (w : World) : World :=
  foldl (λ w c, (call c w).1) w cs.

(** The same calls, with the initialisation of [start()] and the parent
    teardown of [destroy()] as parameters. *)
Definition call_with (init parent : M unit) (c : api) : M unit :=
  match c with
  | ApiUpdate func time => update func time
  | ApiUpdateNow => updateNow
  | ApiStart => start_with init
  | ApiDestroy => destroy_with parent
  | ApiTick t d => deliver updateCallback [(t, d)]
  end.

Definition run_api_with (init parent : M unit) (cs : list api) (w : World)
  : World :=
  foldl (λ w c, (call_with init parent c w).1) w cs.

(** What every reachable bridge satisfies. *)
Definition bridge_inv (w : World) : Prop :=
  (userCallback (this w) = None ↔ userCallbackTime (this w) = None)
  ∧ canvas (this w) = chart (this w)
  ∧ ctx (this w) = chart (this w)
  ∧ (chart (this w) = Ref → is_Some (engine w)).

(** The subscription of the handler to the timeline. *)
Definition is_subscribe (e : event) : bool :=
  match e with
  | EvExt name => String.eqb name "TimelineUpdate.addFrameCallback"
  | _ => false
  end.

(** The component's fields other than the accumulator are the same. *)
Definition same_but_time (t t' : FFChart) : Prop :=
  t' = set_time (time t') t.

(** A method body that touches, of the component, at most the accumulator,
    keeps an existing chart object in place, never subscribes the handler
    and only adds to the trace. *)
Definition handler_like {A} (m : M A) : Prop :=
  ∀ w,
    same_but_time (this w) (this (m w).1)
    ∧ (is_Some (engine w) → is_Some (engine (m w).1))
    ∧ ∃ evs, trace (m w).1 = trace w ++ evs
             ∧ List.filter is_subscribe evs = [].

(** A body that, on a bridge whose handler slot is null, leaves the slot
    null, never subscribes the handler and only adds to the trace. *)
Definition keeps_disposed {A} (m : M A) : Prop :=
  ∀ w,
    updateCallback_slot (this w) = NullMethod →
    updateCallback_slot (this (m w).1) = NullMethod
    ∧ ∃ evs, trace (m w).1 = trace w ++ evs
             ∧ List.filter is_subscribe evs = [].

(** The events of the engine advance of one tick, read from the driver [a]
    with clip sequence [l] and the ambient clock [tl]. *)
Definition advance_events (a : Animation) (l : list ptr) (tl : Timeline)
  : list event :=
  if _running a && negb (_paused a) then
    concat (map (clip_events (clips a) (tl_time tl) (tl_delta tl)) l)
    ++ frame_events None (tl_delta tl) (stage_update a)
  else [].

End Model.

Arguments Clip {CI}.
Arguments Animation {CI}.
Arguments Chart {CI}.
Arguments UserFn {CI}.
Arguments FFChart {CI}.
Arguments World {CI}.
Arguments M {CI} A.
Arguments EchartsLib {CI}.
Arguments ChartApi {CI}.
Arguments api {CI}.

(** ** A concrete engine, for evaluating the model *)

Module Demo.

(** Clips that count down: a clip with [n] steps left finishes on the step
    that brings the count to zero. *)
Definition countdown : ClipIface :=
  {| ClipState := nat;
     clip_step := λ n _ _, (pred n, bool_decide (n ≤ 1)) |}.

(** A driver with three linked clips 1, 2, 3; clips 1 and 3 finish on their
    first step, clip 2 on its second; clips 1 and 2 have a destroy hook. *)
Definition three_clips : @Animation countdown :=
  {| _running := true;
     _paused := false;
     _clipsHead := Some 1;
     _clipsTail := Some 3;
     clips := <[1 := @mkClip countdown 1 (Some 2) None true true]>
              (<[2 := @mkClip countdown 2 (Some 3) (Some 1) true true]>
              (<[3 := @mkClip countdown 1 None (Some 2) true false]> ∅));
     stage_update := true;
     _startLoop := Native;
     update_impl := Native |}.

Definition lib : @EchartsLib countdown :=
  {| echarts_chart := λ _, three_clips |}.

(** A callback that returns normally and leaves the chart as it is. *)
Definition quiet : @UserFn countdown := λ ch, (ch, Ok tt).

(** A callback that throws. *)
Definition failing : @UserFn countdown :=
  λ ch, (ch, Throw (UserError "callback failed")).

Definition conf0 : Conf := mkConf Ref Undefined None None.

Definition fresh : @World countdown := @new_world countdown conf0.

(** [new FFChart(conf); start()] *)
Definition started : @World countdown :=
  (@start countdown lib fresh).1.

(** [new FFChart(conf); update(quiet, 1.2); start()] *)
Definition active : @World countdown :=
  (@start countdown lib (@update countdown quiet (Some 1.2%float) fresh).1).1.

(** [new FFChart(conf); update(quiet, 1.2); updateNow()] *)
Definition eager : @World countdown :=
  (@updateNow countdown
     (@update countdown quiet (Some 1.2%float) fresh).1).1.

(** The chart of [started] and [active]. *)
Definition chart0 : @Chart countdown :=
  @mkChart countdown (@overridden countdown three_clips) false.

(** A world whose chart was made by the library and is not yet overridden. *)
Definition raw : @World countdown :=
  @world_of countdown (@constructor countdown conf0) three_clips false
    (mkTimeline 0%float 0%float) [].

(** Four frames of half a second. *)
Definition four_ticks : list (number * number) :=
  [(500, 500); (1000, 500); (1500, 500); (2000, 500)]%float.

(** [new FFChart(conf); update(failing, 1.2); start()] *)
Definition fragile : @World countdown :=
  (@start countdown lib (@update countdown failing (Some 1.2%float) fresh).1).1.

(** [new FFChart(conf); updateNow()] *)
Definition hasty : @World countdown := (@updateNow countdown fresh).1.

(** A chart library whose driver is paused. *)
Definition paused_clips : @Animation countdown :=
  @mkAnimation countdown true true (Some 1) (Some 3)
    (@clips countdown three_clips) true Native Native.
Definition paused_lib : @EchartsLib countdown :=
  {| echarts_chart := λ _, paused_clips |}.

(** [new FFChart(conf); update(quiet, 1.2); start()] with the paused chart. *)
Definition frozen : @World countdown :=
  (@start countdown paused_lib
     (@update countdown quiet (Some 1.2%float) fresh).1).1.

(** A started bridge whose driver has no clip. *)
Definition bare : @World countdown :=
  @world_of countdown (@constructor countdown conf0)
    (@mkAnimation countdown true false None None ∅ true Patched Patched)
    false (mkTimeline 0%float 0%float) [].

(** A started bridge whose driver has two clips, 1 and 3, without destroy
    hook, each of which finishes on its next step. *)
Definition closing_clips : @Animation countdown :=
  @mkAnimation countdown true false (Some 1) (Some 3)
    (<[1 := @mkClip countdown 1 (Some 3) None true false]>
    (<[3 := @mkClip countdown 1 None (Some 1) true false]> ∅))
    true Patched Patched.
Definition closing : @World countdown :=
  @world_of countdown (@constructor countdown conf0) closing_clips false
    (mkTimeline 0%float 0%float) [].

(** The chart of [frozen]. *)
Definition frozen_chart : @Chart countdown :=
  @mkChart countdown (@overridden countdown paused_clips) false.

(** A parent teardown that finds its own fields cleared by an earlier
    teardown and throws. *)
Definition torn_down : @M countdown unit :=
  @throw countdown unit
    (TypeError "Cannot read properties of null (reading 'destroy')").

(** [destroy()] on [active], then [update(quiet, 1.2)] again. *)
Definition rearmed : @World countdown :=
  (@update countdown quiet (Some 1.2%float) (@destroy countdown active).1).1.

(** A [chart.setOption] that leaves the clips as they are. *)
Definition plain_api : @ChartApi countdown :=
  {| chart_setOption := λ ch, (ch, Ok tt) |}.

End Demo.

(* ================================================================== *)
(** * Part II: properties *)
(* ================================================================== *)

(** Unfolding the monad. *)
Ltac munfold :=
  cbv [mbind M_bind bind mret M_ret ret fmap M_fmap emit modify modify_this
       gets throw diverge finish].

(** ** Stepping through a method body *)

Section Steps.
Context `{CI : ClipIface}.

Lemma bind_ok {A B} (m : M A) (k : A → M B) (w w' : World) (x : A) :
  m w = (w', Ok x) → (m ≫= k) w = k x w'.
Proof. intros H. unfold mbind, M_bind, bind. by rewrite H. Qed.

Lemma fmap_ok {A B} (m : M A) (f : A → B) (w w' : World) (x : A) :
  m w = (w', Ok x) → (f <$> m) w = (w', Ok (f x)).
Proof. intros H. unfold fmap, M_fmap, bind. by rewrite H. Qed.

Lemma ret_ok {A} (x : A) (w : World) : mret (M := M) x w = (w, Ok x).
Proof. reflexivity. Qed.

Lemma new_events_app (w w' : World) evs :
  trace w' = trace w ++ evs → new_events w w' = evs.
Proof. unfold new_events. intros ->. by rewrite drop_app_length. Qed.

End Steps.

Section Bridge.
Context `{CI : ClipIface} `{EL : !EchartsLib}.
Implicit Types (w : World) (t : FFChart) (a : Animation) (ch : Chart).

(** ** Interval normalisation *)

Lemma update_ok func time w :
  update func time w =
  (set_this (set_userCallbackTime
               (Some (let time := default 0.3%float time in
                      if js_lt time 50 then (time * 1000)%float else time))
               (set_userCallback (Some func) (this w))) w, Ok tt).
Proof. reflexivity. Qed.

(** C3: [update(func, time)] stores [time * 1000] when [time < 50] and
    [time] itself otherwise; 1.2 is stored as 1200, 1500 as 1500, and the
    boundary value 50 stays 50. *)
Theorem update_normalizes_interval (func : UserFn) (w : World) :
  (∀ x : number,
     userCallbackTime (this (update func (Some x) w).1) =
       Some (if js_lt x 50 then (x * 1000)%float else x)
     ∧ userCallback (this (update func (Some x) w).1) = Some func
     ∧ (update func (Some x) w).2 = Ok tt)
  ∧ userCallbackTime (this (update func (Some 1.2%float) w).1) = Some 1200%float
  ∧ userCallbackTime (this (update func (Some 1500%float) w).1) = Some 1500%float
  ∧ userCallbackTime (this (update func (Some 50%float) w).1) = Some 50%float.
Proof.
  split; [intros x; rewrite update_ok; done|].
  rewrite !update_ok. repeat split; reflexivity.
Qed.

(** C10: [update(func)] without an interval takes the default 0.3, which is
    below 50 and is therefore stored as 300 milliseconds. *)
Theorem update_default_interval (func : UserFn) (w : World) :
  js_lt 0.3 50 = true
  ∧ userCallbackTime (this (update func None w).1) = Some 300%float.
Proof. split; [reflexivity|]. rewrite update_ok. reflexivity. Qed.

(** ** The handler without a callback *)

(** The first guard of the handler: without a callback it returns at once. *)
Lemma updateCallback_guard (w : World) (time_ delta : number) :
  userCallback (this w) = None →
  updateCallback time_ delta w = (w, Ok tt).
Proof.
  intros Hcb. unfold updateCallback. munfold. simpl. by rewrite Hcb.
Qed.

(** C1 (amended): while no user callback is registered, every tick delivered
    to the handler returns at the handler's first guard.  The engine is not
    advanced, no call is made and the accumulator keeps its value: only the
    ambient clock of the timeline moves. *)
Theorem handler_idle_without_callback (w : World)
  (ticks : list (number * number)) :
  userCallback (this w) = None →
  ∃ w',
    deliver updateCallback ticks w = (w', Ok tt)
    ∧ this w' = this w
    ∧ engine w' = engine w
    ∧ trace w' = trace w.
Proof.
  revert w. induction ticks as [|[t d] ticks IH]; intros w Hcb.
  { by exists w. }
  destruct (IH (set_timeline (mkTimeline t d) w) Hcb)
    as (w' & Hrun & Hthis & He & Htr).
  exists w'. split; [|done]. simpl.
  erewrite bind_ok by reflexivity.
  erewrite bind_ok by (by apply updateCallback_guard). exact Hrun.
Qed.

(** ** Teardown *)

Lemma destroy_no_chart w :
  chart (this w) ≠ Ref →
  destroy w = (set_trace (trace w ++ destroy_prefix) w,
               Throw (cannot_read (chart (this w)) "dispose")).
Proof.
  intros Hc. unfold destroy, destroy_with, chart_dispose. munfold. simpl.
  rewrite <- app_assoc. simpl.
  by destruct (chart (this w)).
Qed.

Lemma destroy_ok_inv w w' :
  destroy w = (w', Ok tt) →
  chart (this w) = Ref
  ∧ userCallback (this w') = None
  ∧ userCallbackTime (this w') = None
  ∧ chart (this w') = Null
  ∧ updateCallback_slot (this w') = NullMethod
  ∧ engine w' = set_disposed true <$> engine w.
Proof.
  destruct w as [t e tl tr].
  unfold destroy, destroy_with, chart_dispose, get_animation. munfold. simpl.
  destruct (chart t) eqn:Hc; try discriminate.
  destruct e as [ch|]; simpl; try discriminate.
  by intros [= <-].
Qed.

Lemma destroy_started w ch :
  chart (this w) = Ref → engine w = Some ch →
  ∃ w', destroy w = (w', Ok tt).
Proof.
  destruct w as [t e tl tr]. simpl. intros Hc ->.
  unfold destroy, destroy_with, chart_dispose, get_animation. munfold. simpl.
  rewrite Hc. simpl. eauto.
Qed.

Lemma destroy_with_ok_inv (parent : M unit) w w' :
  destroy_with parent w = (w', Ok tt) →
  chart (this w') = Null ∧ updateCallback_slot (this w') = NullMethod.
Proof.
  unfold destroy_with, chart_dispose, get_animation. munfold.
  destruct (parent _) as [[t e tl tr] [[]| |]]; simpl; try discriminate.
  destruct (chart t); try discriminate.
  destruct e as [ch|]; simpl; try discriminate.
  by intros [= <-].
Qed.

(** Without a chart object the call ends at the parent teardown or at
    [this.chart.dispose()]. *)
Lemma destroy_with_no_chart (parent : M unit) w :
  (∀ w1, chart (this (parent w1).1) = chart (this w1)) →
  chart (this w) ≠ Ref →
  destroy_with parent w =
    ((parent (emit (EvExt "TimelineUpdate.removeFrameCallback") w).1).1,
     match (parent (emit (EvExt "TimelineUpdate.removeFrameCallback") w).1).2
     with
     | Ok _ => Throw (cannot_read (chart (this w)) "dispose")
     | r => r
     end).
Proof.
  intros Hp Hc. unfold destroy_with, chart_dispose. munfold.
  specialize (Hp (set_trace
    (trace w ++ [EvExt "TimelineUpdate.removeFrameCallback"]) w)).
  destruct (parent _) as [w2 [[]| |]]; simpl in *; [|done|done].
  rewrite Hp. by destruct (chart (this w)).
Qed.

(** C2 (amended): [destroy()] is not a no-op, and does not return normally,
    on a bridge without a chart object.  When [start()] was never called
    ([this.chart] is still undefined), or when a first [destroy()] has
    completed ([this.chart] is null), the call unsubscribes the handler and
    runs the parent teardown; if that raises, its error is the outcome, and
    if it returns, [this.chart.dispose()] raises a TypeError.  Either way
    the call ends there, in the state the parent teardown left.  The parent
    teardown is any behaviour that does not assign [this.chart]. *)
Theorem destroy_requires_chart (parent : M unit) (w : World) :
  (∀ w1, chart (this (parent w1).1) = chart (this w1)) →
  chart (this w) = Undefined
  ∨ (∃ (parent0 : M unit) w0, destroy_with parent0 w0 = (w, Ok tt)) →
  (destroy_with parent w).2 ≠ Ok tt
  ∧ (destroy_with parent w).1 =
      (parent (emit (EvExt "TimelineUpdate.removeFrameCallback") w).1).1
  ∧ ((parent (emit (EvExt "TimelineUpdate.removeFrameCallback") w).1).2
       = Ok tt →
     (destroy_with parent w).2 =
       Throw (cannot_read (chart (this w)) "dispose"))
  ∧ ((parent (emit (EvExt "TimelineUpdate.removeFrameCallback") w).1).2
       ≠ Ok tt →
     (destroy_with parent w).2 =
       (parent (emit (EvExt "TimelineUpdate.removeFrameCallback") w).1).2).
Proof.
  intros Hp H.
  assert (chart (this w) ≠ Ref) as Hc.
  { destruct H as [->|(parent0 & w0 & H)]; [done|].
    apply destroy_with_ok_inv in H as [-> _]. done. }
  rewrite (destroy_with_no_chart parent w Hp Hc). simpl.
  destruct (parent _) as [w2 [[]| |]]; simpl; split_and!; done.
Qed.

(** C7: once [destroy()] has completed, a tick delivered to a retained
    reference of the handler returns normally and leaves the world as it
    is: nothing is thrown and the engine is not advanced. *)
Theorem stale_tick_after_destroy (w w' : World) (time_ delta : number) :
  destroy w = (w', Ok tt) →
  updateCallback time_ delta w' = (w', Ok tt).
Proof.
  intros H. apply destroy_ok_inv in H as (_ & Hcb & _).
  by apply updateCallback_guard.
Qed.

(** ** Start *)

(** C9: with the invoke-immediately flag set and a callback registered,
    [start()] on a bridge that was not destroyed invokes the callback with
    the freshly initialised chart exactly once: the call is the last thing
    [start()] does, after subscribing the handler, and no tick is needed for
    it.  The callback's outcome is the outcome of [start()]. *)
Theorem start_invokes_callback_once (w : World) (cb : UserFn) :
  runUpdateNow (this w) = true →
  userCallback (this w) = Some cb →
  updateCallback_slot (this w) ≠ NullMethod →
  let ch0 := mkChart (overridden (echarts_chart (theme (this w)))) false in
  new_events w (start w).1 =
    start_events ++
      [EvExt "TimelineUpdate.addFrameCallback"; EvUserCallback (time (this w))]
  ∧ fires (new_events w (start w).1) = [time (this w)]
  ∧ engine (start w).1 = Some (cb ch0).1
  ∧ (start w).2 = (cb ch0).2.
Proof.
  intros Hnow Hcb Hslot ch0.
  assert (trace (start w).1 =
            trace w ++ start_events ++
              [EvExt "TimelineUpdate.addFrameCallback";
               EvUserCallback (time (this w))]
          ∧ engine (start w).1 = Some (cb ch0).1
          ∧ (start w).2 = (cb ch0).2) as (Htr & He & Hr).
  { subst ch0. destruct w as [t e tl tr]. destruct t. simpl in *. subst.
    unfold start, initECahrts, initTexture, fixZrender, call_userCallback,
      upd_animation, get_animation.
    munfold. simpl.
    destruct updateCallback_slot0; [| |done]; simpl;
      destruct (cb _) as [ch' r]; simpl;
      (destruct r; simpl; rewrite <- !app_assoc; done). }
  rewrite (new_events_app _ _ _ Htr). done.
Qed.

End Bridge.

(** ** Linked clip sequences *)

Section Links.
Context `{CI : ClipIface}.
Implicit Types (h : gmap ptr Clip) (l : list ptr) (c : ptr).

Lemma links_alter_ne h f c x :
  c ≠ x → links (alter f c h) x = links h x.
Proof. intros. unfold links. by rewrite lookup_alter_ne. Qed.

Lemma behaviour_alter_ne h f c x :
  c ≠ x → behaviour (alter f c h) x = behaviour h x.
Proof. intros. unfold behaviour. by rewrite lookup_alter_ne. Qed.

Lemma links_alter_eq h f c :
  links (alter f c h) c =
  (λ cl, (clip_prev (f cl), clip_next (f cl), clip_animation (f cl))) <$> h !! c.
Proof. unfold links. rewrite lookup_alter_eq. by destruct (h !! c). Qed.

Lemma behaviour_alter_eq h f c :
  (∀ cl, clip_state (f cl) = clip_state cl
         ∧ clip_ondestroy (f cl) = clip_ondestroy cl) →
  behaviour (alter f c h) c = behaviour h c.
Proof.
  intros Hf. unfold behaviour. rewrite lookup_alter_eq.
  destruct (h !! c) as [cl|]; simpl; [|done].
  by destruct (Hf cl) as [-> ->].
Qed.

(** Changing link fields leaves the behaviour of every clip as it is. *)
Lemma behaviour_alter_links h f c x :
  (∀ cl, clip_state (f cl) = clip_state cl
         ∧ clip_ondestroy (f cl) = clip_ondestroy cl) →
  behaviour (alter f c h) x = behaviour h x.
Proof.
  intros Hf. destruct (decide (c = x)) as [->|Hne].
  - by apply behaviour_alter_eq.
  - by apply behaviour_alter_ne.
Qed.

Lemma behaviour_opt_alter h f o x :
  (∀ cl, clip_state (f cl) = clip_state cl
         ∧ clip_ondestroy (f cl) = clip_ondestroy cl) →
  behaviour (opt_alter f o h) x = behaviour h x.
Proof. destruct o; simpl; [apply behaviour_alter_links|done]. Qed.

Lemma behaviour_unlinked h prev next c x :
  behaviour (unlinked prev next c h) x = behaviour h x.
Proof.
  unfold unlinked.
  rewrite behaviour_alter_links, !behaviour_opt_alter; done.
Qed.

Lemma finishes_behaviour h h' time delta c :
  behaviour h' c = behaviour h c →
  finishes h' time delta c = finishes h time delta c.
Proof. unfold finishes. by intros ->. Qed.

Lemma clip_events_behaviour h h' time delta c :
  behaviour h' c = behaviour h c →
  clip_events h' time delta c = clip_events h time delta c.
Proof. unfold clip_events. by intros ->. Qed.

Lemma linked_lookup h l i c :
  linked h l → l !! i = Some c →
  ∃ cl, h !! c = Some cl
        ∧ clip_prev cl = prev_of l i
        ∧ clip_next cl = l !! S i
        ∧ clip_animation cl = true.
Proof.
  intros [_ H] Hi. specialize (H i c Hi). unfold links in H.
  destruct (h !! c) as [cl|]; simplify_eq/=. eauto.
Qed.

Lemma prev_of_middle l1 c l2 :
  prev_of (l1 ++ c :: l2) (length l1) = last l1.
Proof.
  destruct l1 as [|x l1 _] using rev_ind; [done|].
  rewrite length_app, last_snoc, Nat.add_1_r. simpl.
  rewrite <- app_assoc. simpl. by apply list_lookup_middle.
Qed.

Lemma next_of_middle l1 c l2 :
  (l1 ++ c :: l2) !! S (length l1) = head l2.
Proof.
  rewrite lookup_app_r by lia.
  replace (S (length l1) - length l1) with 1 by lia. by destruct l2.
Qed.

(** The clip in the middle of a sequence points back to the last clip
    before it and forward to the first clip after it. *)
Lemma linked_middle h l1 c l2 :
  linked h (l1 ++ c :: l2) →
  ∃ cl, h !! c = Some cl
        ∧ clip_prev cl = last l1
        ∧ clip_next cl = head l2
        ∧ clip_animation cl = true.
Proof.
  intros H.
  destruct (linked_lookup h (l1 ++ c :: l2) (length l1) c H) as (cl & ? & Hp & Hn & ?).
  { by rewrite list_lookup_middle. }
  exists cl. rewrite prev_of_middle in Hp. rewrite next_of_middle in Hn.
  done.
Qed.

Lemma linked_same_links h h' l :
  linked h l → (∀ c, c ∈ l → links h' c = links h c) → linked h' l.
Proof.
  intros [Hnd H] Heq. split; [done|]. intros i c Hi.
  rewrite Heq; [by apply H|]. by eapply list_elem_of_lookup_2.
Qed.

(** A sequence is no longer than the store has clip objects. *)
Lemma linked_length h l : linked h l → length l ≤ size h.
Proof.
  intros [Hnd H].
  assert (list_to_set (C := gset nat) l ⊆ dom h) as Hsub.
  { intros c Hc. apply elem_of_list_to_set, list_elem_of_lookup in Hc as [i Hi].
    apply elem_of_dom. specialize (H i c Hi). unfold links in H.
    destruct (h !! c); [eauto|done]. }
  apply subseteq_size in Hsub.
  rewrite size_list_to_set, size_dom in Hsub; done.
Qed.

Lemma links_opt_alter_ne h f o x :
  o ≠ Some x → links (opt_alter f o h) x = links h x.
Proof.
  destruct o as [y|]; simpl; [|done].
  intros Hne. apply links_alter_ne. congruence.
Qed.

Lemma prev_of_app_l l1 l2 i :
  i ≤ length l1 → prev_of (l1 ++ l2) i = prev_of l1 i.
Proof. destruct i; simpl; [done|]. intros. by rewrite lookup_app_l by lia. Qed.

Lemma prev_of_length l : prev_of l (length l) = last l.
Proof.
  destruct l as [|x l _] using rev_ind; [done|].
  rewrite length_app, last_snoc, Nat.add_1_r. simpl.
  by apply list_lookup_middle.
Qed.

Lemma unlinked_frame h l1 c l2 x :
  x ∉ l1 ++ c :: l2 →
  unlinked (last l1) (head l2) c h !! x = h !! x.
Proof.
  intros Hx. unfold unlinked.
  assert (x ≠ c) by set_solver.
  assert (last l1 ≠ Some x) as H1.
  { intros Hl. apply last_Some_elem_of in Hl. set_solver. }
  assert (head l2 ≠ Some x) as H2.
  { intros Hl. apply head_Some_elem_of in Hl. set_solver. }
  rewrite lookup_alter_ne by done.
  destruct (head l2) as [n|], (last l1) as [q|]; simpl;
    rewrite ?lookup_alter_ne by congruence; done.
Qed.

Lemma unlinked_detached h prev next c :
  is_Some (h !! c) → prev ≠ Some c → next ≠ Some c →
  links (unlinked prev next c h) c = Some (None, None, false).
Proof.
  intros [cl Hc] Hp Hn. unfold unlinked. rewrite links_alter_eq.
  destruct prev as [q|], next as [n|]; simpl;
    rewrite ?lookup_alter_ne by congruence; by rewrite Hc.
Qed.

(** Unlinking the clip in the middle of a sequence leaves the store linking
    the clips around it. *)
Lemma linked_unlinked h l1 c l2 :
  linked h (l1 ++ c :: l2) →
  linked (unlinked (last l1) (head l2) c h) (l1 ++ l2).
Proof.
  intros [Hnd H].
  assert (NoDup (l1 ++ l2) ∧ c ∉ l1 ++ l2) as [Hnd' Hc].
  { apply NoDup_app in Hnd as (Hn1 & Hd & Hn2).
    apply NoDup_cons in Hn2 as [Hc2 Hn2].
    split; [apply NoDup_app; set_solver|set_solver]. }
  split; [done|]. intros i x Hi.
  assert (x ≠ c) as Hxc.
  { intros ->. apply Hc. by eapply list_elem_of_lookup_2. }
  unfold unlinked. rewrite links_alter_ne by done.
  destruct (decide (i < length l1)) as [Hlt|Hge].
  - (* x is before the removed clip *)
    assert (l1 !! i = Some x) as Hi1 by (by rewrite lookup_app_l in Hi).
    assert ((l1 ++ c :: l2) !! i = Some x) as Hi0 by (by rewrite lookup_app_l).
    specialize (H i x Hi0).
    rewrite links_opt_alter_ne.
    2:{ intros Hh%head_Some_elem_of.
        apply NoDup_app in Hnd' as (_ & Hd & _).
        eapply Hd; [by eapply list_elem_of_lookup_2|done]. }
    rewrite (prev_of_app_l l1 (c :: l2)) in H by lia.
    rewrite (prev_of_app_l l1 l2) by lia.
    destruct (decide (S i = length l1)) as [Heq|Hne].
    + assert (last l1 = Some x) as ->.
      { rewrite last_lookup, <- Heq. done. }
      simpl. rewrite links_alter_eq. unfold links in H.
      destruct (h !! x) as [cl|]; simplify_eq/=.
      rewrite Heq, lookup_app_r, Nat.sub_diag by lia.
      rewrite H, H0. by destruct l2.
    + rewrite links_opt_alter_ne.
      2:{ rewrite last_lookup. intros Hl.
          apply NoDup_app in Hnd' as (Hnd1 & _).
          pose proof (NoDup_lookup _ _ _ _ Hnd1 Hi1 Hl). lia. }
      rewrite H. by rewrite !(lookup_app_l l1) by lia.
  - (* x is after the removed clip *)
    assert (l2 !! (i - length l1) = Some x) as Hi2
      by (by rewrite lookup_app_r in Hi by lia).
    assert ((l1 ++ c :: l2) !! S i = Some x) as Hi0.
    { rewrite lookup_app_r by lia.
      replace (S i - length l1) with (S (i - length l1)) by lia. done. }
    specialize (H (S i) x Hi0). simpl in H.
    assert (links (opt_alter (set_next (head l2)) (last l1) h) x = links h x)
      as Hq.
    { apply links_opt_alter_ne. intros Hl%last_Some_elem_of.
      apply NoDup_app in Hnd' as (_ & Hd & _).
      eapply Hd; [done|by eapply list_elem_of_lookup_2]. }
    assert ((l1 ++ c :: l2) !! S (S i) = (l1 ++ l2) !! S i) as Hnext.
    { rewrite !lookup_app_r by lia.
      replace (S (S i) - length l1) with (S (S i - length l1)) by lia. done. }
    destruct (decide (i = length l1)) as [->|Hne].
    + assert (head l2 = Some x) as Hh.
      { rewrite head_lookup. by rewrite Nat.sub_diag in Hi2. }
      rewrite Hh at 1. simpl. rewrite links_alter_eq.
      unfold links in Hq, H. rewrite <- Hq in H.
      destruct (opt_alter _ _ h !! x) as [cl|]; simplify_eq/=.
      rewrite <- Hnext.
      rewrite (prev_of_app_l l1 l2), prev_of_length by lia. congruence.
    + rewrite links_opt_alter_ne.
      2:{ rewrite head_lookup. intros Hl.
          apply NoDup_app in Hnd' as (_ & _ & Hnd2).
          pose proof (NoDup_lookup _ _ _ _ Hnd2 Hi2 Hl). lia. }
      rewrite Hq, H, Hnext. f_equal. f_equal. f_equal.
      destruct i as [|j]; [lia|]. simpl.
      rewrite !lookup_app_r by lia.
      replace (S j - length l1) with (S (j - length l1)) by lia. done.
Qed.

End Links.

(** ** The installed update *)

Section Override.
Context `{CI : ClipIface}.
Implicit Types (h : gmap ptr Clip) (l : list ptr) (c : ptr) (t : FFChart).

Lemma emit_ok t a dsp tl tr e :
  emit e (world_of t a dsp tl tr) = (world_of t a dsp tl (tr ++ [e]), Ok tt).
Proof. reflexivity. Qed.

Lemma get_animation_ok t a dsp tl tr :
  get_animation (world_of t a dsp tl tr) = (world_of t a dsp tl tr, Ok a).
Proof. reflexivity. Qed.

Lemma upd_animation_ok t a dsp tl tr f :
  upd_animation f (world_of t a dsp tl tr) = (world_of t (f a) dsp tl tr, Ok tt).
Proof. reflexivity. Qed.

Lemma read_clip_ok t a dsp tl tr c cl :
  clips a !! c = Some cl →
  read_clip c (world_of t a dsp tl tr) = (world_of t a dsp tl tr, Ok cl).
Proof.
  intros Hc. unfold read_clip.
  erewrite bind_ok by apply get_animation_ok. by rewrite Hc.
Qed.

Lemma upd_clip_ok t a dsp tl tr c f :
  is_Some (clips a !! c) →
  upd_clip c f (world_of t a dsp tl tr) =
  (world_of t (set_clips (alter f c (clips a)) a) dsp tl tr, Ok tt).
Proof.
  intros [cl Hc]. unfold upd_clip.
  erewrite bind_ok by (by apply read_clip_ok). by rewrite upd_animation_ok.
Qed.

Lemma step_clip_ok t a dsp tl tr c cl time delta :
  clips a !! c = Some cl →
  step_clip c time delta (world_of t a dsp tl tr) =
  (world_of t
     (set_clips
        (alter (set_state (clip_step (clip_state cl) time delta).1) c (clips a))
        a)
     dsp tl (tr ++ [EvClipStep c time delta]),
   Ok (clip_step (clip_state cl) time delta).2).
Proof.
  intros Hc. unfold step_clip.
  erewrite bind_ok by (by apply read_clip_ok).
  erewrite bind_ok by apply emit_ok.
  destruct (clip_step (clip_state cl) time delta) as [st fin]. simpl.
  erewrite bind_ok by (apply upd_clip_ok; eauto). done.
Qed.

Lemma removeClip_ok t r p su sl up dsp tl tr h l1 c l2 :
  linked h (l1 ++ c :: l2) →
  removeClip c (world_of t (anim_of r p (l1 ++ c :: l2) h su sl up) dsp tl tr) =
  (world_of t
     (anim_of r p (l1 ++ l2) (unlinked (last l1) (head l2) c h) su sl up)
     dsp tl (tr ++ [EvRemoveClip c]),
   Ok tt).
Proof.
  intros Hl.
  destruct (linked_middle _ _ _ _ Hl) as (cl & Hc & Hprev & Hnext & Han).
  assert (∀ q, last l1 = Some q → is_Some (h !! q)) as Hq.
  { intros q Hlast%last_Some_elem_of.
    assert (q ∈ l1 ++ c :: l2) as [i Hi]%list_elem_of_lookup by set_solver.
    destruct (linked_lookup _ _ _ _ Hl Hi) as (? & ? & _). eauto. }
  assert (∀ n, head l2 = Some n → is_Some (h !! n)) as Hn.
  { intros n Hhead%head_Some_elem_of.
    assert (n ∈ l1 ++ c :: l2) as [i Hi]%list_elem_of_lookup by set_solver.
    destruct (linked_lookup _ _ _ _ Hl Hi) as (? & ? & _). eauto. }
  unfold removeClip.
  erewrite bind_ok by apply emit_ok.
  erewrite bind_ok by (by apply read_clip_ok).
  rewrite Han, Hprev, Hnext. cbn [negb].
  unfold unlinked.
  destruct (last l1) as [q|] eqn:Hlast.
  - erewrite bind_ok by (apply upd_clip_ok; simpl; eauto).
    destruct (head l2) as [n|] eqn:Hhead.
    + erewrite bind_ok
        by (apply upd_clip_ok; simpl; rewrite lookup_alter_is_Some; eauto).
      rewrite upd_clip_ok by (simpl; rewrite !lookup_alter_is_Some; eauto).
      apply head_Some in Hhead as [l2' ->].
      unfold anim_of. simpl. rewrite !last_app_cons.
      destruct l1; [done|]. done.
    + erewrite bind_ok by apply upd_animation_ok.
      rewrite upd_clip_ok by (simpl; rewrite lookup_alter_is_Some; eauto).
      apply head_None in Hhead as ->.
      unfold anim_of. simpl. rewrite app_nil_r, Hlast, last_app_cons. simpl.
      destruct l1; [done|]. done.
  - apply last_None in Hlast as ->.
    erewrite bind_ok by apply upd_animation_ok.
    destruct (head l2) as [n|] eqn:Hhead.
    + erewrite bind_ok by (apply upd_clip_ok; simpl; eauto).
      rewrite upd_clip_ok by (simpl; rewrite !lookup_alter_is_Some; eauto).
      apply head_Some in Hhead as [l2' ->]. done.
    + erewrite bind_ok by apply upd_animation_ok.
      rewrite upd_clip_ok by (simpl; eauto).
      by apply head_None in Hhead as ->.
Qed.

Lemma update_loop_S fuel time delta c :
  update_loop (S fuel) time delta (Some c) =
  (nextClip ← clip_next <$> read_clip c;
   finished ← step_clip c time delta;
   if finished : bool then
     hook ← clip_ondestroy <$> read_clip c;
     (if hook : bool then emit (EvClipOndestroy c) else mret tt);;
     removeClip c;;
     update_loop fuel time delta nextClip
   else
     update_loop fuel time delta nextClip).
Proof. reflexivity. Qed.

Lemma behaviour_lookup h c cl :
  h !! c = Some cl → behaviour h c = Some (clip_state cl, clip_ondestroy cl).
Proof. unfold behaviour. by intros ->. Qed.

Lemma kept_behaviour h h' time delta l :
  (∀ x, x ∈ l → behaviour h' x = behaviour h x) →
  kept h' time delta l = kept h time delta l.
Proof.
  intros H. unfold kept. induction l as [|x l IH]; [done|]. simpl.
  rewrite (finishes_behaviour h h') by (apply H; set_solver).
  rewrite IH by (intros; apply H; set_solver). done.
Qed.

Lemma clip_events_map_behaviour h h' time delta l :
  (∀ x, x ∈ l → behaviour h' x = behaviour h x) →
  map (clip_events h' time delta) l = map (clip_events h time delta) l.
Proof.
  intros H. induction l as [|x l IH]; [done|]. simpl.
  rewrite (clip_events_behaviour h h') by (apply H; set_solver).
  rewrite IH by (intros; apply H; set_solver). done.
Qed.

(** The loop, entered at the first clip of [l2] with [l1] already visited
    and kept, visits the clips of [l2] in order, once each. *)
Lemma update_loop_ok time delta l2 :
  ∀ l1 fuel h t r p su sl up dsp tl tr,
    linked h (l1 ++ l2) → length l2 ≤ fuel →
    ∃ h',
      update_loop fuel time delta (head l2)
        (world_of t (anim_of r p (l1 ++ l2) h su sl up) dsp tl tr) =
      (world_of t
         (anim_of r p (l1 ++ kept h time delta l2) h' su sl up) dsp tl
         (tr ++ concat (map (clip_events h time delta) l2)),
       Ok tt)
      ∧ stepped_store h h' time delta l1 l2.
Proof.
  induction l2 as [|c l2 IH]; intros l1 fuel h t r p su sl up dsp tl tr Hl Hfuel.
  { exists h. simpl. rewrite !app_nil_r. rewrite app_nil_r in Hl.
    split; [by destruct fuel|].
    unfold stepped_store, kept. simpl. rewrite !app_nil_r.
    split_and!; [done|done|done|set_solver|set_solver]. }
  destruct fuel as [|fuel]; [simpl in Hfuel; lia|]. simpl in Hfuel.
  destruct (linked_middle _ _ _ _ Hl) as (cl & Hc & Hprev & Hnext & Han).
  pose proof (behaviour_lookup _ _ _ Hc) as Hb.
  assert (NoDup (l1 ++ c :: l2)) as Hnd by apply Hl.
  assert ((c ∉ l1) ∧ (c ∉ l2)) as [Hc1 Hc2].
  { apply NoDup_app in Hnd as (_ & Hd & Hn2).
    apply NoDup_cons in Hn2 as [? _]. split; [|done].
    intros Hin. eapply Hd; [done|set_solver]. }
  set (st := (clip_step (clip_state cl) time delta).1).
  set (h1 := alter (set_state st) c h).
  assert (linked h1 (l1 ++ c :: l2)) as Hl1.
  { apply (linked_same_links h); [done|]. intros x _. unfold h1.
    destruct (decide (c = x)) as [->|]; [|by apply links_alter_ne].
    rewrite links_alter_eq. unfold links. by destruct (h !! x). }
  assert (∀ x, x ≠ c → behaviour h1 x = behaviour h x) as Hb1.
  { intros x Hx. by apply behaviour_alter_ne. }
  assert (behaviour h1 c = Some (st, clip_ondestroy cl)) as Hbc.
  { unfold behaviour, h1. by rewrite lookup_alter_eq, Hc. }
  assert (∀ k : option ptr → bool → M unit,
            (nextClip ← clip_next <$> read_clip c;
             finished ← step_clip c time delta;
             k nextClip finished)
              (world_of t (anim_of r p (l1 ++ c :: l2) h su sl up) dsp tl tr) =
            k (head l2) (clip_step (clip_state cl) time delta).2
              (world_of t (anim_of r p (l1 ++ c :: l2) h1 su sl up) dsp tl
                 (tr ++ [EvClipStep c time delta]))) as Hstep.
  { intros k.
    erewrite bind_ok by (apply fmap_ok, read_clip_ok; exact Hc).
    erewrite bind_ok by (apply step_clip_ok; exact Hc).
    by rewrite Hnext. }
  change (head (c :: l2)) with (Some c). rewrite update_loop_S, Hstep.
  clear Hstep.
  rewrite map_cons, concat_cons. unfold clip_events at 1. rewrite Hb.
  destruct ((clip_step (clip_state cl) time delta).2) eqn:Hfin.
  - (* the clip has finished: hook, unlink, go on *)
    assert (∀ k : bool → M unit,
              (hook ← clip_ondestroy <$> read_clip c; k hook)
                (world_of t (anim_of r p (l1 ++ c :: l2) h1 su sl up) dsp tl
                   (tr ++ [EvClipStep c time delta])) =
              k (clip_ondestroy cl)
                (world_of t (anim_of r p (l1 ++ c :: l2) h1 su sl up) dsp tl
                   (tr ++ [EvClipStep c time delta]))) as Hhook.
    { intros k. erewrite bind_ok.
      2:{ apply fmap_ok, read_clip_ok. simpl.
          unfold h1. by rewrite lookup_alter_eq, Hc. }
      done. }
    rewrite Hhook. clear Hhook.
    set (h2 := unlinked (last l1) (head l2) c h1).
    assert (∀ x, behaviour h2 x = behaviour h1 x) as Hb2
      by (intros; apply behaviour_unlinked).
    destruct (IH l1 fuel h2 t r p su sl up dsp tl
                ((tr ++ [EvClipStep c time delta]) ++
                 (if clip_ondestroy cl then [EvClipOndestroy c] else []) ++
                 [EvRemoveClip c]))
      as (h' & Hrun & Hl' & Hframe & Hbo & Hbi & Hdet);
      [by apply linked_unlinked|lia|].
    assert (∀ x, x ∈ l2 → behaviour h2 x = behaviour h x) as Hb20.
    { intros x Hx. rewrite Hb2. apply Hb1. set_solver. }
    rewrite (kept_behaviour h h2) in Hrun, Hl' by done.
    rewrite (clip_events_map_behaviour h h2) in Hrun by done.
    assert (kept h time delta (c :: l2) = kept h time delta l2) as Hk.
    { unfold kept. simpl. unfold finishes at 1. by rewrite Hb, Hfin. }
    exists h'. unfold stepped_store. rewrite Hk. split.
    + destruct (clip_ondestroy cl).
      * erewrite bind_ok by apply emit_ok.
        erewrite bind_ok by (by apply removeClip_ok).
        rewrite <- !app_assoc in Hrun. simpl in Hrun.
        rewrite <- !app_assoc. simpl. exact Hrun.
      * erewrite bind_ok by apply ret_ok.
        erewrite bind_ok by (by apply removeClip_ok).
        rewrite <- !app_assoc in Hrun. simpl in Hrun.
        rewrite <- !app_assoc. simpl. exact Hrun.
    + split_and!.
      * done.
      * intros x Hx. rewrite Hframe by set_solver.
        unfold h2. rewrite (unlinked_frame h1 l1 c l2) by done.
        unfold h1. rewrite lookup_alter_ne; [done|set_solver].
      * intros x Hx. rewrite Hbo by set_solver. rewrite Hb2.
        apply Hb1. set_solver.
      * intros x [->|Hx]%elem_of_cons.
        -- rewrite Hbo, Hb2, Hbc, Hb by done. done.
        -- rewrite Hbi, Hb20 by done. done.
      * intros x [->|Hx]%elem_of_cons Hf.
        -- unfold links. rewrite Hframe by set_solver. fold (links h2 c).
           apply unlinked_detached.
           ++ unfold h1. rewrite lookup_alter_is_Some. eauto.
           ++ intros Hq%last_Some_elem_of. done.
           ++ intros Hq%head_Some_elem_of. done.
        -- apply Hdet; [done|].
           by rewrite (finishes_behaviour h h2) by (by apply Hb20).
  - (* the clip goes on: it stays in the sequence *)
    destruct (IH (l1 ++ [c]) fuel h1 t r p su sl up dsp tl
                (tr ++ [EvClipStep c time delta]))
      as (h' & Hrun & Hl' & Hframe & Hbo & Hbi & Hdet);
      [by rewrite <- app_assoc|lia|].
    assert (∀ x, x ∈ l2 → behaviour h1 x = behaviour h x) as Hb10.
    { intros x Hx. apply Hb1. set_solver. }
    rewrite (kept_behaviour h h1) in Hrun, Hl' by done.
    rewrite (clip_events_map_behaviour h h1) in Hrun by done.
    assert (kept h time delta (c :: l2) = c :: kept h time delta l2) as Hk.
    { unfold kept. simpl. unfold finishes at 1. by rewrite Hb, Hfin. }
    exists h'. unfold stepped_store. rewrite Hk. split.
    + rewrite <- !app_assoc in Hrun. simpl in Hrun. exact Hrun.
    + rewrite <- app_assoc in Hl'. split_and!.
      * done.
      * intros x Hx. rewrite Hframe by set_solver.
        unfold h1. rewrite lookup_alter_ne; [done|set_solver].
      * intros x Hx. rewrite Hbo by set_solver. apply Hb1. set_solver.
      * intros x [->|Hx]%elem_of_cons.
        -- rewrite Hbo, Hbc, Hb by done. done.
        -- rewrite Hbi, Hb10 by done. done.
      * intros x [->|Hx]%elem_of_cons Hf.
        -- unfold finishes in Hf. rewrite Hb, Hfin in Hf. done.
        -- apply Hdet; [done|].
           by rewrite (finishes_behaviour h h1) by (by apply Hb10).
Qed.

Lemma linked_is_Some h l c : linked h l → c ∈ l → is_Some (h !! c).
Proof.
  intros Hl [i Hi]%list_elem_of_lookup.
  destruct (linked_lookup _ _ _ _ Hl Hi) as (? & ? & _). eauto.
Qed.

Lemma stepped_app tr1 tr2 : stepped (tr1 ++ tr2) = stepped tr1 ++ stepped tr2.
Proof. apply omap_app. Qed.

Lemma stepped_clip_events h time delta c :
  is_Some (h !! c) → stepped (clip_events h time delta c) = [c].
Proof.
  intros [cl Hc]. unfold clip_events. rewrite (behaviour_lookup _ _ _ Hc).
  destruct (clip_step _ _ _).2, (clip_ondestroy cl); done.
Qed.

(** Every clip of a linked sequence is stepped once, in sequence order. *)
Lemma stepped_traversal h time delta l :
  (∀ c, c ∈ l → is_Some (h !! c)) →
  stepped (concat (map (clip_events h time delta) l)) = l.
Proof.
  induction l as [|c l IH]; intros H; [done|]. simpl.
  rewrite stepped_app, stepped_clip_events by (apply H; set_solver).
  rewrite IH by (intros; apply H; set_solver). done.
Qed.

Lemma stepped_frame_events arg delta su :
  stepped (frame_events arg delta su) = [].
Proof. unfold frame_events. by destruct (negb _), su. Qed.

Lemma frame_notice_traversal h time delta l :
  List.filter is_frame_notice (concat (map (clip_events h time delta) l)) = [].
Proof.
  induction l as [|c l IH]; [done|]. simpl. rewrite List.filter_app, IH.
  unfold clip_events. destruct (behaviour h c) as [[st [|]]|]; [| |done];
    by destruct (clip_step _ _ _).2.
Qed.


Lemma kept_subseteq h time delta l : kept h time delta l ⊆ l.
Proof.
  intros c. unfold kept. rewrite !list_elem_of_In, List.filter_In. tauto.
Qed.

Lemma kept_not_finished h time delta l c :
  c ∈ kept h time delta l → finishes h time delta c = false.
Proof.
  unfold kept. rewrite list_elem_of_In, List.filter_In.
  intros [_ H]. by destruct (finishes _ _ _ _).
Qed.

(** One call of the installed [update] on a driver whose sequence is [l]. *)
Lemma patched_update_ok arg t r p su sl up dsp tl tr h l :
  linked h l →
  ∃ h',
    patched_update arg (world_of t (anim_of r p l h su sl up) dsp tl tr) =
    (world_of t
       (anim_of r p (kept h (tl_time tl) (tl_delta tl) l) h' su sl up) dsp tl
       (tr ++ concat (map (clip_events h (tl_time tl) (tl_delta tl)) l)
           ++ frame_events arg (tl_delta tl) su),
     Ok tt)
    ∧ stepped_store h h' (tl_time tl) (tl_delta tl) [] l.
Proof.
  intros Hl.
  destruct (update_loop_ok (tl_time tl) (tl_delta tl) l [] (size h) h
              t r p su sl up dsp tl tr Hl (linked_length _ _ Hl))
    as (h' & Hrun & Hst).
  exists h'. split; [|done].
  unfold patched_update.
  erewrite bind_ok by reflexivity. erewrite bind_ok by reflexivity.
  erewrite bind_ok by apply get_animation_ok.
  erewrite bind_ok by exact Hrun.
  unfold frame_events. destruct (negb (truthy arg)).
  - erewrite bind_ok by apply emit_ok. erewrite bind_ok by apply emit_ok.
    erewrite bind_ok by apply get_animation_ok.
    destruct su; simpl; rewrite <- !app_assoc;
      [rewrite emit_ok; by rewrite <- ?app_assoc|reflexivity].
  - unfold ret. by rewrite app_nil_r.
Qed.

(** The same call on any world whose driver has the override installed and
    whose clip sequence is [l]. *)
Lemma animation_update_spec (w : World) (ch : Chart) l arg :
  engine w = Some ch →
  update_impl (_zr_animation ch) = Patched →
  clip_list (_zr_animation ch) l →
  let a := _zr_animation ch in
  let time := tl_time (TimelineUpdate w) in
  let delta := tl_delta (TimelineUpdate w) in
  ∃ a',
    animation_update arg w =
    (mkWorld (this w) (Some (mkChart a' (disposed ch))) (TimelineUpdate w)
       (trace w ++ concat (map (clip_events (clips a) time delta) l)
                ++ frame_events arg delta (stage_update a)),
     Ok tt)
    ∧ clip_list a' (kept (clips a) time delta l)
    ∧ same_flags a a'
    ∧ stepped_store (clips a) (clips a') time delta [] l.
Proof.
  destruct w as [t e tl tr], ch as [[r p hd tp h su sl up] dsp].
  intros He Hup (Hh & Ht & Hl). simpl in *. subst.
  destruct (patched_update_ok arg t r p su sl Patched dsp tl tr h l Hl)
    as (h' & Hrun & Hst).
  eexists. split; [|split_and!].
  - unfold animation_update.
    change (mkWorld t (Some (mkChart ?a dsp)) tl tr) with (world_of t a dsp tl tr).
    erewrite bind_ok by apply get_animation_ok. simpl update_impl.
    cbv iota. exact Hrun.
  - split_and!; [done|done|]. apply Hst.
  - done.
  - exact Hst.
Qed.

(** Later calls of the installed [update], one per frame, only step clips
    that are still in the sequence. *)
Lemma later_updates arg frames :
  ∀ (w : World) (ch : Chart) l,
    engine w = Some ch →
    update_impl (_zr_animation ch) = Patched →
    clip_list (_zr_animation ch) l →
    ∃ w' evs,
      deliver (λ _ _, animation_update arg) frames w = (w', Ok tt)
      ∧ trace w' = trace w ++ evs
      ∧ ∀ c, c ∈ stepped evs → c ∈ l.
Proof.
  induction frames as [|[t d] frames IH]; intros w ch l He Hup Hcl.
  { exists w, []. simpl. rewrite app_nil_r. split_and!; [done|done|].
    intros c Hc. by apply elem_of_nil in Hc. }
  set (w1 := set_timeline (mkTimeline t d) w).
  destruct (animation_update_spec w1 ch l arg He Hup Hcl)
    as (a' & Hrun & Hcl' & Hfl & Hst).
  match type of Hrun with _ = (?x, _) => set (w2 := x) in * end.
  assert (update_impl a' = Patched) as Hup'.
  { destruct Hfl as (_ & _ & _ & _ & ->). done. }
  destruct (IH w2 (mkChart a' (disposed ch)) _ eq_refl Hup' Hcl')
    as (w' & evs & Hrest & Htr & Hin).
  exists w'. eexists. split_and!.
  - simpl. erewrite bind_ok by reflexivity. fold w1.
    erewrite bind_ok by exact Hrun. exact Hrest.
  - rewrite Htr. simpl. rewrite <- !app_assoc. reflexivity.
  - intros c. rewrite !stepped_app, stepped_frame_events, app_nil_l.
    rewrite stepped_traversal.
    2:{ intros x Hx. eapply linked_is_Some; [apply Hcl|done]. }
    intros [Hc|Hc]%elem_of_app; [done|].
    apply Hin in Hc. by apply kept_subseteq in Hc.
Qed.

(** C5: one call of the installed [update] on a driver whose clip sequence
    is [l] returns after a single pass from head to tail.  Each clip of [l]
    is stepped exactly once, in sequence order; a clip that finishes has its
    destroy hook called (when it has one) and is then unlinked, which clears
    its own successor pointer, and the traversal still goes on with the
    successor read beforehand.  The sequence left is that of the clips that
    did not finish, so no later call steps a finished clip. *)
Theorem update_single_pass (w : World) (ch : Chart) (l : list ptr)
  (arg : option bool) :
  engine w = Some ch →
  update_impl (_zr_animation ch) = Patched →
  clip_list (_zr_animation ch) l →
  let h := clips (_zr_animation ch) in
  let time := tl_time (TimelineUpdate w) in
  let delta := tl_delta (TimelineUpdate w) in
  ∃ w' ch',
    animation_update arg w = (w', Ok tt)
    ∧ engine w' = Some ch'
    ∧ new_events w w' =
        concat (map (clip_events h time delta) l)
        ++ frame_events arg delta (stage_update (_zr_animation ch))
    ∧ stepped (new_events w w') = l
    ∧ NoDup l
    ∧ clip_list (_zr_animation ch') (kept h time delta l)
    ∧ (∀ c, c ∈ l → finishes h time delta c = true →
         (c ∉ kept h time delta l)
         ∧ links (clips (_zr_animation ch')) c = Some (None, None, false))
    ∧ (∀ arg' frames, ∃ w'',
         deliver (λ _ _, animation_update arg') frames w' = (w'', Ok tt)
         ∧ ∀ c, c ∈ l → finishes h time delta c = true →
             c ∉ stepped (new_events w' w'')).
Proof.
  intros He Hup Hcl h time delta.
  destruct (animation_update_spec w ch l arg He Hup Hcl)
    as (a' & Hrun & Hcl' & Hfl & Hst).
  match type of Hrun with _ = (?x, _) => set (w' := x) in * end.
  assert (new_events w w' =
            concat (map (clip_events h time delta) l)
            ++ frame_events arg delta (stage_update (_zr_animation ch))) as Hnew
    by (by apply new_events_app).
  assert (∀ c, c ∈ l → finishes h time delta c = true →
            c ∉ kept h time delta l) as Hgone.
  { intros c _ Hf Hk%kept_not_finished. congruence. }
  exists w', (mkChart a' (disposed ch)). split_and!; try done.
  - rewrite Hnew, stepped_app, stepped_frame_events, app_nil_r.
    apply stepped_traversal. intros c Hc.
    eapply linked_is_Some; [apply Hcl|done].
  - apply Hcl.
  - intros c Hc Hf. split; [by apply Hgone|].
    destruct Hst as (_ & _ & _ & _ & Hdet). by apply Hdet.
  - intros arg' frames.
    assert (update_impl a' = Patched) as Hup'.
    { destruct Hfl as (_ & _ & _ & _ & ->). done. }
    destruct (later_updates arg' frames w' (mkChart a' (disposed ch)) _
                eq_refl Hup' Hcl') as (w'' & evs & Hrest & Htr & Hin).
    exists w''. split; [done|]. intros c Hc Hf Hs.
    rewrite (new_events_app _ _ _ Htr) in Hs.
    by apply Hin, Hgone in Hs.
Qed.

(** C6: a call of the installed [update] first traverses the clips, which
    produces no frame notification, and then, unless its argument is truthy
    (it is not when omitted), calls the driver's [onframe] hook with
    [delta], triggers "frame" with [delta], and calls [stage.update] exactly
    when the stage has one; with a truthy argument none of the three calls
    is made. *)
Theorem update_frame_notification (w : World) (ch : Chart) (l : list ptr)
  (arg : option bool) :
  engine w = Some ch →
  update_impl (_zr_animation ch) = Patched →
  clip_list (_zr_animation ch) l →
  let a := _zr_animation ch in
  let time := tl_time (TimelineUpdate w) in
  let delta := tl_delta (TimelineUpdate w) in
  let traversal := concat (map (clip_events (clips a) time delta) l) in
  let notices :=
    if truthy arg then []
    else [EvOnframe delta; EvTrigger "frame" delta]
         ++ (if stage_update a then [EvStageUpdate] else []) in
  ∃ w',
    animation_update arg w = (w', Ok tt)
    ∧ new_events w w' = traversal ++ notices
    ∧ List.filter is_frame_notice traversal = []
    ∧ List.filter is_frame_notice (new_events w w') = notices
    ∧ truthy None = false.
Proof.
  intros He Hup Hcl a time delta traversal notices.
  destruct (animation_update_spec w ch l arg He Hup Hcl)
    as (a' & Hrun & _).
  match type of Hrun with _ = (?x, _) => set (w' := x) in * end.
  assert (frame_events arg delta (stage_update a) = notices) as Hn.
  { unfold frame_events, notices. by destruct (truthy arg). }
  assert (new_events w w' = traversal ++ notices) as Hnew.
  { rewrite <- Hn. by apply new_events_app. }
  exists w'. split_and!; [done|done|apply frame_notice_traversal| |done].
  rewrite Hnew, List.filter_app.
  unfold traversal. rewrite frame_notice_traversal. simpl.
  unfold notices. by destruct (truthy arg), (stage_update a).
Qed.

Lemma fixZrender_ok t a dsp tl tr :
  fixZrender (world_of t a dsp tl tr) =
  (world_of t (overridden a) dsp tl tr, Ok tt).
Proof. reflexivity. Qed.

(** C8: installing the override a second time changes nothing: the world
    after two installs is the world after one.  Hence an advance behaves the
    same, and makes each frame notification once; and the start-loop
    closure still only sets [_running], without scheduling a timer. *)
Theorem fixZrender_idempotent (w : World) (ch : Chart) (l : list ptr) :
  engine w = Some ch →
  clip_list (_zr_animation ch) l →
  let a := _zr_animation ch in
  let w1 := (fixZrender w).1 in
  let w2 := (fixZrender w1).1 in
  let delta := tl_delta (TimelineUpdate w) in
  (fixZrender w).2 = Ok tt
  ∧ fixZrender w1 = (w1, Ok tt)
  ∧ w2 = w1
  ∧ engine w1 = Some (mkChart (overridden a) (disposed ch))
  ∧ (∀ arg, animation_update arg w2 = animation_update arg w1)
  ∧ animation_startLoop w2 =
      (set_engine
         (Some (mkChart (set_running true (overridden a)) (disposed ch))) w1,
       Ok tt)
  ∧ ∃ w', animation_update None w2 = (w', Ok tt)
          ∧ List.filter is_frame_notice (new_events w2 w') =
              [EvOnframe delta; EvTrigger "frame" delta]
              ++ (if stage_update a then [EvStageUpdate] else []).
Proof.
  destruct w as [t e tl tr], ch as [a dsp]. simpl. intros -> Hcl.
  change (mkWorld t (Some (mkChart a dsp)) tl tr) with (world_of t a dsp tl tr).
  rewrite !fixZrender_ok. simpl. rewrite !fixZrender_ok. simpl.
  split_and!; try done.
  assert (clip_list (overridden a) l) as Hcl' by exact Hcl.
  destruct (animation_update_spec (world_of t (overridden a) dsp tl tr)
              (mkChart (overridden a) dsp) l None eq_refl eq_refl Hcl')
    as (a' & Hrun & _).
  eexists. split; [exact Hrun|].
  erewrite new_events_app by reflexivity.
  rewrite List.filter_app, frame_notice_traversal. simpl.
  by destruct (stage_update a).
Qed.

End Override.

(** ** The accumulator *)

Section Accumulator.
Context `{CI : ClipIface}.
Implicit Types (w : World) (ch : Chart) (cb : UserFn).




Lemma call_userCallback_ok t ch tl tr cb ch' r :
  userCallback t = Some cb →
  cb ch = (ch', r) →
  call_userCallback (mkWorld t (Some ch) tl tr) =
  (mkWorld t (Some ch') tl (tr ++ [EvUserCallback (time t)]), r).
Proof.
  intros Hcb Hcall. unfold call_userCallback. munfold. simpl.
  rewrite Hcb. simpl. by rewrite Hcall.
Qed.






End Accumulator.

(** ** Registration, start and teardown, continued *)

Section Lifecycle.
Context `{CI : ClipIface} `{EL : !EchartsLib} `{CA : !ChartApi}.
Implicit Types (w : World) (ch : Chart) (cb : UserFn).

(** X1: a second [update] replaces the callback and the interval of the
    first, and no [update] touches the accumulator, the chart, the
    invoke-immediately flag, the engine or the trace: re-registering in the
    middle of an interval keeps the time accumulated so far. *)
Theorem update_last_wins (f1 f2 : UserFn) (t1 t2 : option number) (w : World) :
  update f2 t2 (update f1 t1 w).1 = update f2 t2 w
  ∧ time (this (update f1 t1 w).1) = time (this w)
  ∧ chart (this (update f1 t1 w).1) = chart (this w)
  ∧ runUpdateNow (this (update f1 t1 w).1) = runUpdateNow (this w)
  ∧ engine (update f1 t1 w).1 = engine w
  ∧ trace (update f1 t1 w).1 = trace w.
Proof. rewrite !update_ok. destruct w as [t e tl tr], t. done. Qed.

(** X2: [updateNow] is idempotent and commutes with [update]: the order in
    which the callback and the flag are set before [start()] is
    immaterial. *)
Theorem updateNow_commutes (f : UserFn) (t : option number) (w : World) :
  updateNow (updateNow w).1 = updateNow w
  ∧ (update f t (updateNow w).1).1 = (updateNow (update f t w).1).1
  ∧ runUpdateNow (this (updateNow w).1) = true.
Proof. rewrite !update_ok. destruct w as [th e tl tr], th. done. Qed.

(** What [start()] does up to and including the subscription. *)
Lemma start_prefix_ok (w : World) :
  updateCallback_slot (this w) ≠ NullMethod →
  (initECahrts;; initTexture;; emit (EvExt "animations.start");;
   slot ← gets (λ w, updateCallback_slot (this w));
   match slot with
   | NullMethod => throw (cannot_read Null "bind")
   | _ => modify_this (set_updateCallback BoundMethod)
   end;;
   emit (EvExt "TimelineUpdate.addFrameCallback")) w =
  (mkWorld
     (set_updateCallback BoundMethod
        (set_canvas Ref (set_chart Ref (set_ctx Ref (this w)))))
     (Some (mkChart (overridden (echarts_chart (theme (this w)))) false))
     (TimelineUpdate w)
     (trace w ++ start_events ++ [EvExt "TimelineUpdate.addFrameCallback"]),
   Ok tt).
Proof.
  destruct w as [t e tl tr], t. simpl. intros Hslot.
  unfold initECahrts, initTexture, fixZrender, upd_animation, get_animation.
  munfold. simpl.
  destruct updateCallback_slot0; [| |done]; simpl;
    by rewrite <- !app_assoc.
Qed.

Lemma start_unfold (w : World) :
  start w =
  ((initECahrts;; initTexture;; emit (EvExt "animations.start");;
    slot ← gets (λ w, updateCallback_slot (this w));
    match slot with
    | NullMethod => throw (cannot_read Null "bind")
    | _ => modify_this (set_updateCallback BoundMethod)
    end;;
    emit (EvExt "TimelineUpdate.addFrameCallback")) ≫= λ _,
   now ← gets (λ w, runUpdateNow (this w));
   if now : bool then call_userCallback else mret tt) w.
Proof.
  unfold start. munfold.
  destruct (initECahrts w) as [w1 [[]| |]]; [|done|done].
  destruct (initTexture w1) as [w2 [[]| |]]; [|done|done]. simpl.
  destruct (updateCallback_slot (this w2)); done.
Qed.

(** X3: on a bridge that was not destroyed and whose invoke-immediately
    flag is not set, [start()] returns normally without calling the
    callback.  It creates the chart, installs the override on its driver,
    subscribes the handler once, as its last call, and leaves the callback,
    the interval and the accumulator as they were. *)
Theorem start_without_flag (w : World) :
  runUpdateNow (this w) = false →
  updateCallback_slot (this w) ≠ NullMethod →
  let ch0 := mkChart (overridden (echarts_chart (theme (this w)))) false in
  ∃ w',
    start w = (w', Ok tt)
    ∧ new_events w w' =
        start_events ++ [EvExt "TimelineUpdate.addFrameCallback"]
    ∧ fires (new_events w w') = []
    ∧ engine w' = Some ch0
    ∧ this w' =
        set_updateCallback BoundMethod
          (set_canvas Ref (set_chart Ref (set_ctx Ref (this w))))
    ∧ (∀ l, clip_list (echarts_chart (theme (this w))) l → engine_ok ch0).
Proof.
  intros Hnow Hslot ch0. rewrite start_unfold.
  erewrite bind_ok by (by apply start_prefix_ok).
  erewrite bind_ok by reflexivity. simpl.
  destruct w as [t e tl tr], t. simpl in *. subst.
  eexists. split; [reflexivity|].
  erewrite new_events_app by reflexivity.
  split_and!; try done.
  intros l Hl. split; [done|]. by exists l.
Qed.

(** X4: with the invoke-immediately flag set but no callback registered,
    [start()] throws a TypeError at the call of the missing callback.  By
    then the chart has been created and the handler subscribed: the bridge
    is left started. *)
Theorem start_flag_without_callback (w : World) :
  runUpdateNow (this w) = true →
  userCallback (this w) = None →
  updateCallback_slot (this w) ≠ NullMethod →
  ∃ w',
    start w = (w', Throw (TypeError "this.userCallback is not a function"))
    ∧ new_events w w' =
        start_events ++ [EvExt "TimelineUpdate.addFrameCallback"]
    ∧ chart (this w') = Ref
    ∧ updateCallback_slot (this w') = BoundMethod
    ∧ engine w' =
        Some (mkChart (overridden (echarts_chart (theme (this w)))) false).
Proof.
  intros Hnow Hcb Hslot. rewrite start_unfold.
  erewrite bind_ok by (by apply start_prefix_ok).
  erewrite bind_ok by reflexivity. simpl.
  destruct w as [t e tl tr], t. simpl in *. subst.
  unfold call_userCallback. munfold. simpl.
  eexists. split; [reflexivity|].
  erewrite new_events_app by reflexivity. done.
Qed.

(** X6: a tick that reaches the handler while a callback is registered but
    the chart is absent (before [start()], or when a callback is registered
    again after [destroy()]) throws a TypeError at [chart._zr] and leaves
    the world, accumulator included, as it was. *)
Theorem tick_without_chart (w : World) (cb : UserFn) (time_ delta : number) :
  userCallback (this w) = Some cb →
  chart (this w) ≠ Ref →
  updateCallback time_ delta w =
    (w, Throw (cannot_read (chart (this w)) "_zr")).
Proof.
  intros Hcb Hch. unfold updateCallback, echartsUpdate. munfold. simpl.
  rewrite Hcb. by destruct (chart (this w)).
Qed.

(** X14: on a started bridge [destroy()] returns normally.  It unsubscribes
    the handler, runs the parent teardown and disposes the chart, in this
    order, then clears the callback, its interval, the handler slot and the
    chart, canvas, context and option fields; the accumulator and the
    invoke-immediately flag keep their values. *)
Theorem destroy_started_ok (w : World) (ch : Chart) :
  chart (this w) = Ref →
  engine w = Some ch →
  ∃ w',
    destroy w = (w', Ok tt)
    ∧ new_events w w' = destroy_prefix ++ [EvExt "chart.dispose"]
    ∧ engine w' = Some (set_disposed true ch)
    ∧ this w' =
        set_ctx Null (set_chart Null (set_optionOpts Null (set_option Null
          (set_canvas Null (set_userCallbackTime None
            (set_updateCallback NullMethod
              (set_userCallback None (this w))))))))
    ∧ time (this w') = time (this w)
    ∧ runUpdateNow (this w') = runUpdateNow (this w).
Proof.
  destruct w as [t e tl tr]. simpl. intros Hc ->.
  unfold destroy, destroy_with, chart_dispose, get_animation. munfold. simpl.
  rewrite Hc. simpl. eexists. split; [reflexivity|].
  unfold new_events. simpl. rewrite <- !app_assoc. simpl.
  rewrite drop_app_length. by destruct t.
Qed.

(** X17: [setOption] needs the chart: before [start()] and after
    [destroy()] it throws a TypeError at [chart.setOption] and changes
    nothing; on a started bridge it makes the one call to the chart, whose
    outcome is its own, and changes no field of the component. *)
Theorem setOption_needs_chart (w : World) :
  this (setOption w).1 = this w
  ∧ (chart (this w) ≠ Ref →
       setOption w = (w, Throw (cannot_read (chart (this w)) "setOption")))
  ∧ (∀ ch, chart (this w) = Ref → engine w = Some ch →
       (setOption w).2 = (chart_setOption ch).2
       ∧ engine (setOption w).1 = Some (chart_setOption ch).1
       ∧ new_events w (setOption w).1 = [EvExt "chart.setOption"]).
Proof.
  destruct w as [t e tl tr]. unfold setOption. munfold. simpl.
  split_and!.
  - destruct (chart t); [done|done|]. destruct e as [ch|]; [|done].
    simpl. by destruct (chart_setOption ch) as [ch' []].
  - intros Hc. by destruct (chart t).
  - intros ch -> ->. simpl. destruct (chart_setOption ch) as [ch' r].
    unfold new_events. simpl. rewrite drop_app_length.
    by destruct r.
Qed.

End Lifecycle.

(** ** One tick in detail *)

Section Ticks.
Context `{CI : ClipIface}.
Implicit Types (w : World) (ch : Chart) (cb : UserFn) (l : list ptr).

(** The engine advance of one tick, on a driver with the override installed
    and clip sequence [l]. *)
Lemma echartsUpdate_events w ch l time_ delta :
  engine w = Some ch →
  update_impl (_zr_animation ch) = Patched →
  clip_list (_zr_animation ch) l →
  ∃ ch1,
    echartsUpdate Ref time_ delta w =
      (mkWorld (this w) (Some ch1) (TimelineUpdate w)
         (trace w ++ advance_events (_zr_animation ch) l (TimelineUpdate w)),
       Ok tt)
    ∧ engine_ok ch1.
Proof.
  destruct w as [t e tl tr], ch as [a dsp]. simpl. intros -> Hup Hcl.
  unfold echartsUpdate, advance_events.
  change (mkWorld t (Some (mkChart a dsp)) tl tr) with (world_of t a dsp tl tr).
  erewrite bind_ok by apply get_animation_ok.
  destruct (_running a && negb (_paused a)).
  - destruct (animation_update_spec (world_of t a dsp tl tr) (mkChart a dsp)
                l None eq_refl Hup Hcl) as (a' & Hrun & Hcl' & Hfl & _).
    eexists. split; [exact Hrun|].
    split; [|by eexists]. simpl. destruct Hfl as (_ & _ & _ & _ & ->). done.
  - exists (mkChart a dsp). rewrite app_nil_r. split; [done|].
    split; [done|by exists l].
Qed.

(** The whole tick: advance, accumulate, and call the callback when due. *)
Lemma tick_detail w cb iv ch l time_ delta :
  userCallback (this w) = Some cb →
  userCallbackTime (this w) = Some iv →
  chart (this w) = Ref →
  engine w = Some ch →
  update_impl (_zr_animation ch) = Patched →
  clip_list (_zr_animation ch) l →
  let acc := (time (this w) + delta)%float in
  let adv := advance_events (_zr_animation ch) l (TimelineUpdate w) in
  ∃ ch1,
    echartsUpdate Ref time_ delta w =
      (mkWorld (this w) (Some ch1) (TimelineUpdate w) (trace w ++ adv), Ok tt)
    ∧ engine_ok ch1
    ∧ updateCallback time_ delta w =
        if js_ge acc iv then
          (mkWorld
             (set_time (match (cb ch1).2 with Ok _ => 0%float | _ => acc end)
                       (this w))
             (Some (cb ch1).1) (TimelineUpdate w)
             (trace w ++ adv ++ [EvUserCallback acc]),
           (cb ch1).2)
        else
          (mkWorld (set_time acc (this w)) (Some ch1) (TimelineUpdate w)
             (trace w ++ adv),
           Ok tt).
Proof.
  intros Hcb Hiv Hch He Hup Hcl acc adv.
  destruct (echartsUpdate_events w ch l time_ delta He Hup Hcl)
    as (ch1 & Hadv & Hok1).
  exists ch1. split; [exact Hadv|]. split; [exact Hok1|].
  fold adv in Hadv.
  destruct w as [t e tl tr]. simpl in *. subst e.
  unfold updateCallback.
  erewrite bind_ok by reflexivity. erewrite bind_ok by reflexivity.
  erewrite bind_ok by reflexivity. simpl. rewrite Hcb, Hch.
  erewrite bind_ok by exact Hadv.
  erewrite bind_ok by reflexivity. erewrite bind_ok by reflexivity.
  simpl. rewrite Hiv. simpl. fold acc.
  destruct (js_ge acc iv); [|by destruct t].
  destruct (cb ch1) as [ch2 r] eqn:Hcall. simpl.
  unfold mbind, M_bind, bind.
  change (set_this ?x (mkWorld _ ?e0 ?tl0 ?tr0)) with (mkWorld x e0 tl0 tr0).
  erewrite (call_userCallback_ok _ ch1 _ _ cb ch2 r); [|exact Hcb|exact Hcall].
  simpl. rewrite <- app_assoc. destruct r as [[]| |], t; reflexivity.
Qed.

(** X9: within one tick the engine is advanced before the callback is
    called: the calls of the advance all precede the callback call, the
    callback receives the chart as that advance left it, and its outcome
    and its changes to the chart are what the handler leaves. *)
Theorem callback_after_advance w cb iv ch l time_ delta :
  userCallback (this w) = Some cb →
  userCallbackTime (this w) = Some iv →
  chart (this w) = Ref →
  engine w = Some ch →
  update_impl (_zr_animation ch) = Patched →
  clip_list (_zr_animation ch) l →
  js_ge (time (this w) + delta)%float iv = true →
  let w' := (updateCallback time_ delta w).1 in
  ∃ w1 ch1,
    echartsUpdate Ref time_ delta w = (w1, Ok tt)
    ∧ engine w1 = Some ch1
    ∧ new_events w w' =
        new_events w w1 ++ [EvUserCallback (time (this w) + delta)%float]
    ∧ engine w' = Some (cb ch1).1
    ∧ (updateCallback time_ delta w).2 = (cb ch1).2.
Proof.
  intros Hcb Hiv Hch He Hup Hcl Hge w'.
  destruct (tick_detail w cb iv ch l time_ delta Hcb Hiv Hch He Hup Hcl)
    as (ch1 & Hadv & _ & Hrun).
  rewrite Hge in Hrun. subst w'. rewrite Hrun.
  eexists _, ch1. split; [exact Hadv|]. simpl.
  split_and!; try done.
  do 2 (erewrite new_events_app by reflexivity). done.
Qed.

(** X7: when the callback throws, the exception leaves the handler and the
    accumulator is not reset: it keeps the value that made the callback due,
    while the engine advance of the tick has taken place. *)
Theorem callback_throws w cb iv ch l time_ delta e :
  userCallback (this w) = Some cb →
  userCallbackTime (this w) = Some iv →
  chart (this w) = Ref →
  engine w = Some ch →
  update_impl (_zr_animation ch) = Patched →
  clip_list (_zr_animation ch) l →
  js_ge (time (this w) + delta)%float iv = true →
  (∀ ch', (cb ch').2 = Throw e) →
  let acc := (time (this w) + delta)%float in
  let w' := (updateCallback time_ delta w).1 in
  (updateCallback time_ delta w).2 = Throw e
  ∧ time (this w') = acc
  ∧ js_ge (time (this w')) iv = true
  ∧ new_events w w' =
      advance_events (_zr_animation ch) l (TimelineUpdate w)
      ++ [EvUserCallback acc].
Proof.
  intros Hcb Hiv Hch He Hup Hcl Hge Hthrow acc w'.
  destruct (tick_detail w cb iv ch l time_ delta Hcb Hiv Hch He Hup Hcl)
    as (ch1 & _ & _ & Hrun).
  rewrite Hge in Hrun. subst w'. rewrite Hrun, (Hthrow ch1). simpl.
  erewrite new_events_app by reflexivity.
  split_and!; done.
Qed.

Lemma advance_events_steps a l tl c t' d' :
  EvClipStep c t' d' ∈ advance_events a l tl →
  t' = tl_time tl ∧ d' = tl_delta tl ∧ c ∈ l.
Proof.
  unfold advance_events. destruct (_ && _); [|by intros ?%elem_of_nil].
  intros [Hin|Hin]%elem_of_app.
  - apply list_elem_of_In, in_concat in Hin as (evs & Hevs & Hin).
    apply in_map_iff in Hevs as (x & <- & Hx).
    apply list_elem_of_In in Hin, Hx.
    unfold clip_events in Hin.
    destruct (behaviour (clips a) x) as [[st hook]|]; [|by apply elem_of_nil in Hin].
    apply elem_of_cons in Hin as [Heq|Hin]; [by simplify_eq|].
    destruct (clip_step st _ _).2; [|by apply elem_of_nil in Hin].
    destruct hook; simpl in Hin; set_solver.
  - unfold frame_events in Hin. simpl in Hin.
    destruct (stage_update a); set_solver.
Qed.

(** X10: the clips are stepped with the timeline's ambient time and delta,
    not with the arguments of the handler: the time argument has no effect
    at all, and the delta argument only feeds the accumulator. *)
Theorem steps_use_ambient_clock w cb iv ch l time_ delta :
  userCallback (this w) = Some cb →
  userCallbackTime (this w) = Some iv →
  chart (this w) = Ref →
  engine w = Some ch →
  update_impl (_zr_animation ch) = Patched →
  clip_list (_zr_animation ch) l →
  let w' := (updateCallback time_ delta w).1 in
  (∀ c t' d', EvClipStep c t' d' ∈ new_events w w' →
     t' = tl_time (TimelineUpdate w) ∧ d' = tl_delta (TimelineUpdate w))
  ∧ (∀ time', updateCallback time' delta w = updateCallback time_ delta w)
  ∧ (∀ delta',
       stepped (new_events w (updateCallback time_ delta' w).1) =
       stepped (new_events w w')).
Proof.
  intros Hcb Hiv Hch He Hup Hcl w'.
  assert (∀ dl, ∃ tail,
            new_events w (updateCallback time_ dl w).1 =
            advance_events (_zr_animation ch) l (TimelineUpdate w) ++ tail
            ∧ stepped tail = []) as Hev.
  { intros dl.
    destruct (tick_detail w cb iv ch l time_ dl Hcb Hiv Hch He Hup Hcl)
      as (ch1 & _ & _ & Hrun).
    rewrite Hrun. destruct (js_ge _ iv); simpl.
    - eexists. by erewrite new_events_app by reflexivity.
    - exists []. rewrite app_nil_r. by erewrite new_events_app by reflexivity. }
  split_and!.
  - intros c t' d' Hin. subst w'.
    destruct (Hev delta) as (tail & Heq & Htail). rewrite Heq in Hin.
    apply elem_of_app in Hin as [Hin|Hin].
    + apply advance_events_steps in Hin. tauto.
    + assert (c ∈ stepped tail) as Hc.
      { unfold stepped. apply list_elem_of_omap. by exists (EvClipStep c t' d'). }
      rewrite Htail in Hc. by apply elem_of_nil in Hc.
  - done.
  - intros delta'. subst w'.
    destruct (Hev delta) as (tail & -> & Htail).
    destruct (Hev delta') as (tail' & -> & Htail').
    by rewrite !stepped_app, Htail, Htail'.
Qed.

(** X8: when the driver is paused or not running, a tick does not advance
    the engine, yet the callback schedule goes on: the delta is accumulated
    and the callback is called when due, on the chart as it was. *)
Theorem paused_engine_tick w cb iv ch time_ delta :
  userCallback (this w) = Some cb →
  userCallbackTime (this w) = Some iv →
  chart (this w) = Ref →
  engine w = Some ch →
  _running (_zr_animation ch) && negb (_paused (_zr_animation ch)) = false →
  let acc := (time (this w) + delta)%float in
  updateCallback time_ delta w =
    if js_ge acc iv then
      (mkWorld
         (set_time (match (cb ch).2 with Ok _ => 0%float | _ => acc end)
                   (this w))
         (Some (cb ch).1) (TimelineUpdate w)
         (trace w ++ [EvUserCallback acc]),
       (cb ch).2)
    else (set_this (set_time acc (this w)) w, Ok tt).
Proof.
  destruct w as [t e tl tr], ch as [a dsp]. simpl. intros Hcb Hiv Hch -> Hoff.
  unfold updateCallback.
  erewrite bind_ok by reflexivity. erewrite bind_ok by reflexivity.
  erewrite bind_ok by reflexivity. simpl. rewrite Hcb, Hch.
  erewrite bind_ok.
  2:{ unfold echartsUpdate.
      change (mkWorld t (Some (mkChart a dsp)) tl tr)
        with (world_of t a dsp tl tr).
      erewrite bind_ok by apply get_animation_ok. rewrite Hoff. reflexivity. }
  erewrite bind_ok by reflexivity. erewrite bind_ok by reflexivity.
  simpl. rewrite Hiv. simpl.
  destruct (js_ge (time t + delta) iv); [|by destruct t].
  destruct (cb (mkChart a dsp)) as [ch2 r] eqn:Hcall. simpl.
  unfold mbind, M_bind, bind, world_of.
  change (set_this ?x (mkWorld _ ?e0 ?tl0 ?tr0)) with (mkWorld x e0 tl0 tr0).
  erewrite (call_userCallback_ok _ (mkChart a dsp) _ _ cb ch2 r);
    [|exact Hcb|exact Hcall].
  simpl. destruct r as [[]| |], t; reflexivity.
Qed.

End Ticks.

(** ** The advance, continued *)

Section Advance.
Context `{CI : ClipIface}.
Implicit Types (w : World) (ch : Chart) (l : list ptr) (h : gmap ptr Clip).

Lemma update_loop_None fuel time delta (w : World) :
  update_loop fuel time delta None w = (w, Ok tt).
Proof. by destruct fuel. Qed.

(** X11: on a driver without clips the installed [update] steps and
    removes nothing: the three frame notifications are the only calls it
    makes, and with a truthy argument it makes no call at all and leaves
    the world as it is. *)
Theorem advance_without_clips w ch (arg : option bool) :
  engine w = Some ch →
  update_impl (_zr_animation ch) = Patched →
  _clipsHead (_zr_animation ch) = None →
  (animation_update arg w).2 = Ok tt
  ∧ new_events w (animation_update arg w).1 =
      frame_events arg (tl_delta (TimelineUpdate w))
        (stage_update (_zr_animation ch))
  ∧ (truthy arg = true → animation_update arg w = (w, Ok tt)).
Proof.
  destruct w as [t e tl tr], ch as [[r p hd tp h su sl up] dsp]. simpl.
  intros -> -> ->.
  change (mkWorld t (Some (mkChart ?a dsp)) tl tr) with (world_of t a dsp tl tr).
  unfold animation_update.
  erewrite bind_ok by apply get_animation_ok. simpl.
  unfold patched_update.
  erewrite bind_ok by reflexivity. erewrite bind_ok by reflexivity.
  erewrite bind_ok by apply get_animation_ok.
  erewrite bind_ok by apply update_loop_None.
  unfold frame_events. simpl. destruct (truthy arg); simpl.
  - split_and!; [done| |done].
    apply new_events_app. simpl. by rewrite app_nil_r.
  - erewrite bind_ok by apply emit_ok. erewrite bind_ok by apply emit_ok.
    erewrite bind_ok by apply get_animation_ok.
    destruct su; simpl; (split_and!; [done| |done]);
      apply new_events_app; simpl; by rewrite <- !app_assoc.
Qed.

Lemma kept_all_finish h time delta l :
  (∀ c, c ∈ l → finishes h time delta c = true) → kept h time delta l = [].
Proof.
  intros H. unfold kept. induction l as [|c l IH]; [done|]. simpl.
  rewrite H by set_solver. simpl. apply IH. intros. apply H. set_solver.
Qed.

(** The calls made for a clip without destroy hook that finishes. *)
Lemma clip_events_plain h time delta c :
  snd <$> behaviour h c = Some false →
  clip_events h time delta c =
    EvClipStep c time delta ::
    (if finishes h time delta c then [EvRemoveClip c] else []).
Proof.
  unfold clip_events, finishes.
  destruct (behaviour h c) as [[st hook]|]; [|done].
  intros [= ->]. by destruct (clip_step st time delta).2.
Qed.

(** X12: when no clip of the sequence has a destroy hook and every clip
    finishes on its step, one call of the installed [update] with a truthy
    argument (the traversal alone) makes, for each clip in sequence order,
    the call of its [step] followed by [removeClip], and no other call; it
    leaves the driver without clips: head and tail are null and every clip
    is detached. *)
Theorem advance_all_finish w ch l (arg : option bool) :
  engine w = Some ch →
  update_impl (_zr_animation ch) = Patched →
  clip_list (_zr_animation ch) l →
  truthy arg = true →
  (∀ c, c ∈ l → snd <$> behaviour (clips (_zr_animation ch)) c = Some false) →
  (∀ c, c ∈ l →
     finishes (clips (_zr_animation ch)) (tl_time (TimelineUpdate w))
       (tl_delta (TimelineUpdate w)) c = true) →
  ∃ w' ch',
    animation_update arg w = (w', Ok tt)
    ∧ engine w' = Some ch'
    ∧ new_events w w' =
        concat (map (λ c, [EvClipStep c (tl_time (TimelineUpdate w))
                             (tl_delta (TimelineUpdate w));
                           EvRemoveClip c]) l)
    ∧ _clipsHead (_zr_animation ch') = None
    ∧ _clipsTail (_zr_animation ch') = None
    ∧ ∀ c, c ∈ l →
        links (clips (_zr_animation ch')) c = Some (None, None, false).
Proof.
  intros He Hup Hcl Harg Hplain Hall.
  destruct (animation_update_spec w ch l arg He Hup Hcl)
    as (a' & Hrun & Hcl' & _ & Hst).
  simpl in *.
  eexists _, (mkChart a' (disposed ch)). split; [exact Hrun|].
  split; [done|]. simpl.
  erewrite new_events_app by reflexivity.
  unfold frame_events. rewrite Harg. simpl. rewrite app_nil_r.
  rewrite (kept_all_finish _ _ _ _ Hall) in Hcl'.
  destruct Hcl' as (-> & -> & _). split_and!; [|done|done|].
  - clear Hst Hrun Hcl. induction l as [|c l IH]; [done|]. simpl.
    rewrite IH by (intros; first [apply Hplain|apply Hall]; set_solver).
    rewrite clip_events_plain by (apply Hplain; set_solver).
    rewrite Hall by set_solver. done.
  - intros c Hc. destruct Hst as (_ & _ & _ & _ & Hdet). by apply Hdet, Hall.
Qed.

(** X13: one call of the installed [update] with a truthy argument (the
    traversal alone, without the frame notifications), on a sequence whose
    clips have no destroy hook, only works on the clips of the sequence.
    It calls no hook, neither adds nor removes clip objects, leaves every
    clip outside the sequence untouched, replaces the state of each clip of
    the sequence by the state its step returns, and changes neither the
    driver's [_running] and [_paused] flags and method slots, nor the
    component, nor the ambient clock. *)
Theorem advance_keeps_objects w ch l (arg : option bool) :
  engine w = Some ch →
  update_impl (_zr_animation ch) = Patched →
  clip_list (_zr_animation ch) l →
  truthy arg = true →
  (∀ c, c ∈ l → snd <$> behaviour (clips (_zr_animation ch)) c = Some false) →
  let h := clips (_zr_animation ch) in
  let time := tl_time (TimelineUpdate w) in
  let delta := tl_delta (TimelineUpdate w) in
  ∃ w' ch',
    animation_update arg w = (w', Ok tt)
    ∧ engine w' = Some ch'
    ∧ this w' = this w
    ∧ TimelineUpdate w' = TimelineUpdate w
    ∧ disposed ch' = disposed ch
    ∧ same_flags (_zr_animation ch) (_zr_animation ch')
    ∧ new_events w w' =
        concat (map (λ c, EvClipStep c time delta ::
                          (if finishes h time delta c
                           then [EvRemoveClip c] else [])) l)
    ∧ dom (clips (_zr_animation ch')) = dom h
    ∧ (∀ c, c ∉ l → clips (_zr_animation ch') !! c = h !! c)
    ∧ (∀ c, c ∈ l →
         behaviour (clips (_zr_animation ch')) c =
         (λ b, ((clip_step b.1 time delta).1, b.2)) <$> behaviour h c).
Proof.
  intros He Hup Hcl Harg Hplain h time delta. subst h time delta.
  destruct (animation_update_spec w ch l arg He Hup Hcl)
    as (a' & Hrun & Hcl' & Hfl & Hst).
  destruct Hst as (_ & Hframe & _ & Hstep & _).
  eexists _, (mkChart a' (disposed ch)). split; [exact Hrun|]. simpl.
  split_and!; try done.
  - erewrite new_events_app by reflexivity.
    unfold frame_events. rewrite Harg. simpl. rewrite app_nil_r.
    clear -Hplain. induction l as [|c l IH]; [done|]. simpl.
    rewrite IH by (intros; apply Hplain; set_solver).
    by rewrite clip_events_plain by (apply Hplain; set_solver).
  - apply set_eq. intros c. rewrite !elem_of_dom.
    destruct (decide (c ∈ l)) as [Hc|Hc].
    + specialize (Hstep c Hc). unfold behaviour in Hstep.
      destruct (clips a' !! c), (clips (_zr_animation ch) !! c);
        simplify_eq/=; split; intros [? ?]; by eauto.
    + rewrite Hframe by (by rewrite app_nil_l). done.
Qed.

End Advance.

(** ** Every reachable bridge *)

Section Reachable.
Context `{CI : ClipIface} `{EL : !EchartsLib}.
Implicit Types (w : World) (t : FFChart).

Lemma slot_null_cases (sl : method_slot) :
  sl = NullMethod ∨ sl ≠ NullMethod.
Proof. destruct sl; auto. Qed.

Lemma ref_cases (r : jsref) : r = Ref ∨ r ≠ Ref.
Proof. destruct r; auto. Qed.

Lemma same_but_time_refl t : same_but_time t t.
Proof. by destruct t. Qed.

Lemma same_but_time_trans t1 t2 t3 :
  same_but_time t1 t2 → same_but_time t2 t3 → same_but_time t1 t3.
Proof.
  unfold same_but_time. destruct t1, t2, t3. simpl. intros [= -> -> -> -> -> -> -> -> -> ->].
  by intros [= -> -> -> -> -> -> -> -> -> ->].
Qed.

Lemma hl_unchanged {A} (m : M A) :
  (∀ w, (m w).1 = w) → handler_like m.
Proof.
  intros H w. rewrite H. split_and!; [apply same_but_time_refl|done|].
  exists []. by rewrite app_nil_r.
Qed.

Lemma hl_bind {A B} (m : M A) (k : A → M B) :
  handler_like m → (∀ x, handler_like (k x)) → handler_like (m ≫= k).
Proof.
  intros Hm Hk w. unfold mbind, M_bind, bind.
  destruct (Hm w) as (Ht & He & evs & Htr & Hev).
  destruct (m w) as [w1 [x|e|]]; simpl in *;
    [|split_and!; eauto..].
  destruct (Hk x w1) as (Ht' & He' & evs' & Htr' & Hev').
  split_and!.
  - by eapply same_but_time_trans.
  - eauto.
  - exists (evs ++ evs'). rewrite Htr', Htr, <- app_assoc.
    by rewrite List.filter_app, Hev, Hev'.
Qed.

Lemma hl_fmap {A B} (f : A → B) (m : M A) :
  handler_like m → handler_like (f <$> m).
Proof.
  intros Hm. apply (hl_bind m (λ a, ret (f a))); [done|].
  intros x. by apply hl_unchanged.
Qed.

Lemma hl_emit e : is_subscribe e = false → handler_like (emit e).
Proof.
  intros He w. simpl. split_and!; [apply same_but_time_refl|done|].
  exists [e]. simpl. by rewrite He.
Qed.

Lemma hl_modify_engine (f : World → option Chart) :
  (∀ w, is_Some (engine w) → is_Some (f w)) →
  handler_like (modify (λ w, set_engine (f w) w)).
Proof.
  intros Hf w. simpl. split_and!; [apply same_but_time_refl|apply Hf|].
  exists []. by rewrite app_nil_r.
Qed.

Lemma hl_upd_animation f : handler_like (upd_animation f).
Proof.
  apply (hl_modify_engine
           (λ w, (λ ch, set_animation (f (_zr_animation ch)) ch) <$> engine w)).
  intros w [ch ->]. by eexists.
Qed.

Lemma hl_set_time (f : FFChart → number) :
  handler_like (modify_this (λ t, set_time (f t) t)).
Proof.
  intros w. simpl. split_and!; [by destruct (this w)|done|].
  exists []. by rewrite app_nil_r.
Qed.

Lemma hl_get_animation : handler_like get_animation.
Proof. apply hl_unchanged. intros w. unfold get_animation. munfold.
  by destruct (engine w). Qed.

Lemma hl_read_clip x : handler_like (read_clip x).
Proof.
  apply hl_unchanged. intros w. unfold read_clip, get_animation. munfold.
  destruct (engine w) as [ch|]; [|done]. simpl.
  by destruct (clips (_zr_animation ch) !! x).
Qed.

Lemma hl_upd_clip x f : handler_like (upd_clip x f).
Proof.
  apply hl_bind; [apply hl_read_clip|]. intros _. apply hl_upd_animation.
Qed.

Lemma hl_step_clip x time delta : handler_like (step_clip x time delta).
Proof.
  apply hl_bind; [apply hl_read_clip|]. intros cl.
  apply hl_bind; [by apply hl_emit|]. intros _.
  destruct (clip_step (clip_state cl) time delta) as [st fin].
  apply hl_bind; [apply hl_upd_clip|]. intros _. by apply hl_unchanged.
Qed.

Lemma hl_removeClip x : handler_like (removeClip x).
Proof.
  apply hl_bind; [by apply hl_emit|]. intros _.
  apply hl_bind; [apply hl_read_clip|]. intros cl.
  destruct (negb (clip_animation cl)); [by apply hl_unchanged|].
  apply hl_bind.
  { destruct (clip_prev cl); [apply hl_upd_clip|apply hl_upd_animation]. }
  intros _. apply hl_bind.
  { destruct (clip_next cl); [apply hl_upd_clip|apply hl_upd_animation]. }
  intros _. apply hl_upd_clip.
Qed.

Lemma hl_update_loop fuel time delta :
  ∀ clip, handler_like (update_loop fuel time delta clip).
Proof.
  induction fuel as [|fuel IH]; intros [x|]; try (by apply hl_unchanged).
  rewrite update_loop_S.
  apply hl_bind; [apply hl_fmap, hl_read_clip|]. intros nextClip.
  apply hl_bind; [apply hl_step_clip|]. intros [|]; [|apply IH].
  apply hl_bind; [apply hl_fmap, hl_read_clip|]. intros hook.
  apply hl_bind.
  { destruct hook; [by apply hl_emit|by apply hl_unchanged]. }
  intros _. apply hl_bind; [apply hl_removeClip|]. intros _. apply IH.
Qed.

Lemma hl_patched_update arg : handler_like (patched_update arg).
Proof.
  apply hl_bind; [by apply hl_unchanged|]. intros time.
  apply hl_bind; [by apply hl_unchanged|]. intros delta.
  apply hl_bind; [apply hl_get_animation|]. intros a.
  apply hl_bind; [apply hl_update_loop|]. intros _.
  destruct (negb (truthy arg)); [|by apply hl_unchanged].
  apply hl_bind; [by apply hl_emit|]. intros _.
  apply hl_bind; [by apply hl_emit|]. intros _.
  apply hl_bind; [apply hl_get_animation|]. intros a'.
  destruct (stage_update a'); [by apply hl_emit|by apply hl_unchanged].
Qed.

Lemma hl_echartsUpdate c0 time delta :
  handler_like (echartsUpdate c0 time delta).
Proof.
  destruct c0; try (by apply hl_unchanged).
  apply hl_bind; [apply hl_get_animation|]. intros a.
  destruct (_ && _); [|by apply hl_unchanged].
  apply hl_bind; [apply hl_get_animation|]. intros a'.
  destruct (update_impl a'); [by apply hl_emit|apply hl_patched_update].
Qed.

Lemma hl_call_userCallback : handler_like call_userCallback.
Proof.
  apply hl_bind; [by apply hl_unchanged|]. intros [cb|];
    [|by apply hl_unchanged].
  apply hl_bind; [by apply hl_unchanged|]. intros acc.
  apply hl_bind; [by apply hl_emit|]. intros _.
  apply hl_bind; [by apply hl_unchanged|]. intros [ch|];
    [|by apply hl_unchanged].
  destruct (cb ch) as [ch' r].
  apply hl_bind; [|intros _; by apply hl_unchanged].
  by apply (hl_modify_engine (λ _, Some ch')).
Qed.

Lemma hl_updateCallback time_ delta :
  handler_like (updateCallback time_ delta).
Proof.
  apply hl_bind; [by apply hl_unchanged|]. intros c0.
  apply hl_bind; [by apply hl_unchanged|]. intros iv.
  apply hl_bind; [by apply hl_unchanged|]. intros [cb|];
    [|by apply hl_unchanged].
  apply hl_bind; [apply hl_echartsUpdate|]. intros _.
  apply hl_bind; [apply (hl_set_time (λ t, (time t + delta)%float))|].
  intros _. apply hl_bind; [by apply hl_unchanged|]. intros now.
  destruct (js_ge now (to_number iv)); [|by apply hl_unchanged].
  apply hl_bind; [apply hl_call_userCallback|]. intros _.
  apply (hl_set_time (λ _, 0%float)).
Qed.

Lemma hl_tick time_ delta :
  handler_like (deliver updateCallback [(time_, delta)]).
Proof.
  simpl. apply hl_bind.
  { intros w. simpl. split_and!; [apply same_but_time_refl|done|].
    exists []. by rewrite app_nil_r. }
  intros _. apply hl_bind; [apply hl_updateCallback|].
  intros _. by apply hl_unchanged.
Qed.

(** What [start()] leaves in every case. *)
Lemma start_fields w :
  ∃ t' evs,
    same_but_time
      (set_canvas Ref (set_chart Ref (set_ctx Ref (this w))))
      (set_updateCallback (updateCallback_slot (this w)) t')
    ∧ this (start w).1 = t'
    ∧ (updateCallback_slot (this w) = NullMethod →
         updateCallback_slot t' = NullMethod
         ∧ List.filter is_subscribe evs = [])
    ∧ is_Some (engine (start w).1)
    ∧ trace (start w).1 = trace w ++ evs.
Proof.
  destruct (slot_null_cases (updateCallback_slot (this w))) as [Hn|Hn].
  - destruct w as [t e tl tr], t. simpl in *. subst.
    unfold start, initECahrts, initTexture, fixZrender, upd_animation,
      get_animation.
    munfold. simpl. eexists _, start_events.
    split_and!; [done|done|done|by eexists|].
    by rewrite <- !app_assoc.
  - rewrite start_unfold.
    erewrite bind_ok by (by apply start_prefix_ok).
    set (w1 := mkWorld _ _ _ _).
    erewrite bind_ok by reflexivity.
    change (runUpdateNow (this w1)) with (runUpdateNow (this w)).
    destruct (hl_call_userCallback w1) as (Ht & He & evs & Htr & _).
    destruct (runUpdateNow (this w)).
    + eexists _, _. split_and!; [|reflexivity|done|by apply He|].
      * simpl in Ht. unfold same_but_time in *. rewrite Ht.
        by destruct (this w).
      * rewrite Htr. simpl. by rewrite <- app_assoc.
    + eexists _, _. simpl. split_and!; [|reflexivity|done|by eexists|done].
      by destruct (this w).
Qed.

(** Each call keeps the invariant of the bridge. *)
Lemma call_inv (c : api) w : bridge_inv w → bridge_inv (call c w).1.
Proof.
  intros (Hcb & Hcv & Hcx & Heng). destruct c as [f ti| | | |ti d]; cbn [call].
  - rewrite update_ok. destruct w as [t e tl tr], t. simpl in *.
    split_and!; done.
  - destruct w as [t e tl tr], t. simpl in *. by split_and!.
  - destruct (start_fields w) as (t' & evs & Ht & Hthis & _ & He & _).
    unfold bridge_inv. rewrite Hthis.
    unfold same_but_time in Ht.
    destruct (this w), t'. simpl in *. cbv in Ht.
    injection Ht; intros; subst. by split_and!.
  - destruct (ref_cases (chart (this w))) as [Hr|Hr].
    + destruct (Heng Hr) as [ch Hch]. clear Hcb Hcv Hcx Heng.
      destruct w as [t e tl tr]. simpl in *. subst e.
      unfold bridge_inv, destroy, destroy_with, chart_dispose, get_animation.
      munfold. simpl. rewrite Hr. simpl. by split_and!.
    + rewrite (destroy_no_chart _ Hr). by split_and!.
  - destruct (hl_tick ti d w) as (Ht & He & _).
    unfold bridge_inv. unfold same_but_time in Ht. rewrite Ht.
    destruct (this w). simpl in *. split_and!; try done.
    intros Hr. by apply He, Heng.
Qed.

(** X15: whatever calls are made on a new bridge, in whatever order and
    whether or not some of them throw, a callback is registered exactly
    when an interval is stored (the handler never compares the accumulator
    with a null interval while a callback is registered), the chart, canvas
    and context fields are set and cleared together, and a chart field that
    holds a chart refers to an existing chart object. *)
Theorem reachable_bridge (conf : Conf) (cs : list api) :
  bridge_inv (run_api cs (new_world conf)).
Proof.
  assert (∀ w, bridge_inv w → bridge_inv (run_api cs w)) as H.
  { induction cs as [|c cs IH]; intros w Hw; [done|].
    simpl. apply IH. by apply call_inv. }
  apply H. by split_and!.
Qed.

(** ** After a teardown *)

Lemma kd_unchanged {A} (m : M A) :
  (∀ w, (m w).1 = w) → keeps_disposed m.
Proof.
  intros H w Hn. rewrite H. split; [done|]. exists []. by rewrite app_nil_r.
Qed.

Lemma kd_bind {A B} (m : M A) (k : A → M B) :
  keeps_disposed m → (∀ x, keeps_disposed (k x)) → keeps_disposed (m ≫= k).
Proof.
  intros Hm Hk w Hn. unfold mbind, M_bind, bind.
  destruct (Hm w Hn) as (Hn1 & evs & Htr & Hev).
  destruct (m w) as [w1 [x|e|]]; simpl in *; [|eauto..].
  destruct (Hk x w1 Hn1) as (Hn2 & evs' & Htr' & Hev').
  split; [done|]. exists (evs ++ evs').
  by rewrite Htr', Htr, <- app_assoc, List.filter_app, Hev, Hev'.
Qed.

Lemma kd_handler_like {A} (m : M A) : handler_like m → keeps_disposed m.
Proof.
  intros H w Hn. destruct (H w) as (Ht & _ & Hev). split; [|done].
  unfold same_but_time in Ht. rewrite Ht. by destruct (this w).
Qed.

Lemma kd_modify_this (f : FFChart → FFChart) :
  (∀ t, updateCallback_slot t = NullMethod →
        updateCallback_slot (f t) = NullMethod) →
  keeps_disposed (modify_this f).
Proof.
  intros Hf w Hn. simpl. split; [by apply Hf|].
  exists []. by rewrite app_nil_r.
Qed.

Lemma hl_chart_dispose : handler_like chart_dispose.
Proof.
  apply hl_bind; [by apply hl_unchanged|]. intros [| |];
    try (by apply hl_unchanged).
  apply hl_bind; [apply hl_get_animation|]. intros _.
  apply hl_bind; [by apply hl_emit|]. intros _.
  apply (hl_modify_engine (λ w, set_disposed true <$> engine w)).
  intros w [ch ->]. by eexists.
Qed.

(** On a bridge whose handler slot is null, [start()] ends at the latest at
    [this.updateCallback.bind]. *)
Lemma start_with_disposed (init : M unit) w :
  updateCallback_slot (this (init w).1) = NullMethod →
  start_with init w =
    ((init w).1,
     match (init w).2 with
     | Ok _ => Throw (cannot_read Null "bind")
     | r => r
     end).
Proof.
  intros Hn. unfold start_with. munfold.
  destruct (init w) as [w1 [[]| |]]; simpl in *; [|done|done].
  by rewrite Hn.
Qed.

Lemma kd_start_with (init : M unit) :
  keeps_disposed init → keeps_disposed (start_with init).
Proof.
  intros Hi w Hn. destruct (Hi w Hn) as (Hn1 & Hev).
  by rewrite (start_with_disposed init w Hn1).
Qed.

Lemma kd_destroy_with (parent : M unit) :
  keeps_disposed parent → keeps_disposed (destroy_with parent).
Proof.
  intros Hp.
  apply kd_bind; [by apply kd_handler_like, hl_emit|]. intros _.
  apply kd_bind; [done|]. intros _.
  apply kd_bind; [apply kd_handler_like, hl_chart_dispose|]. intros _.
  repeat (apply kd_bind; [by apply kd_modify_this; intros []|]; intros _).
  by apply kd_modify_this; intros [].
Qed.

(** The initialisation and the parent teardown of this model are among the
    behaviours considered. *)
Lemma kd_start_init : keeps_disposed start_init.
Proof.
  intros w Hn. destruct w as [t e tl tr], t. simpl in *. subst.
  unfold start_init, initECahrts, initTexture, fixZrender, upd_animation,
    get_animation.
  munfold. simpl. split; [done|]. eexists. rewrite <- !app_assoc. by split.
Qed.

Lemma kd_super_destroy : keeps_disposed (emit (EvExt "super.destroy")).
Proof. by apply kd_handler_like, hl_emit. Qed.

Lemma start_with_start_init w : start_with start_init w = start w.
Proof.
  unfold start_with, start_init, start. munfold.
  destruct (initECahrts w) as [w1 [[]| |]]; [|done|done].
  destruct (initTexture w1) as [w2 [[]| |]]; done.
Qed.

Lemma run_api_with_model (cs : list api) w :
  run_api_with start_init (emit (EvExt "super.destroy")) cs w = run_api cs w.
Proof.
  revert w. induction cs as [|c cs IH]; intros w; [done|]. simpl.
  rewrite <- IH.
  replace (call_with start_init (emit (EvExt "super.destroy")) c w)
    with (call c w); [done|].
  by destruct c.
Qed.

Lemma call_with_disposed (init parent : M unit) (c : api) :
  keeps_disposed init → keeps_disposed parent →
  keeps_disposed (call_with init parent c).
Proof.
  intros Hi Hp. destruct c as [f ti| | | |ti d]; cbn [call_with].
  - apply kd_bind; [by apply kd_modify_this; intros []|]. intros _.
    by apply kd_modify_this; intros [].
  - by apply kd_modify_this; intros [].
  - by apply kd_start_with.
  - by apply kd_destroy_with.
  - apply kd_handler_like, hl_tick.
Qed.

(** X16: once [destroy()] has completed the bridge stays disposed.  However
    the initialisation of [start()] and the parent teardown behave on such
    a bridge (they may throw; they do not assign the handler slot and do
    not subscribe the handler), whatever calls follow leave the handler
    slot null and never subscribe the handler to the timeline again; no
    later [start()] returns normally: it ends with the error of its
    initialisation or, if that returns, with a TypeError at
    [this.updateCallback.bind]. *)
Theorem disposed_is_final (init parent parent0 : M unit) (w0 w : World)
  (cs : list api) :
  keeps_disposed init →
  keeps_disposed parent →
  destroy_with parent0 w0 = (w, Ok tt) →
  updateCallback_slot (this (run_api_with init parent cs w)) = NullMethod
  ∧ (∃ evs, trace (run_api_with init parent cs w) = trace w ++ evs
            ∧ List.filter is_subscribe evs = [])
  ∧ (start_with init (run_api_with init parent cs w)).2 ≠ Ok tt
  ∧ ((init (run_api_with init parent cs w)).2 = Ok tt →
     (start_with init (run_api_with init parent cs w)).2 =
       Throw (cannot_read Null "bind"))
  ∧ List.filter is_subscribe
      (new_events (run_api_with init parent cs w)
         (start_with init (run_api_with init parent cs w)).1) = [].
Proof.
  intros Hi Hp [_ Hn]%destroy_with_ok_inv.
  assert (updateCallback_slot (this (run_api_with init parent cs w))
            = NullMethod
          ∧ ∃ evs, trace (run_api_with init parent cs w) = trace w ++ evs
                   ∧ List.filter is_subscribe evs = []) as [Hs Htr].
  { revert w Hn. induction cs as [|c cs IH]; intros w Hn.
    { split; [done|]. exists []. by rewrite app_nil_r. }
    simpl.
    destruct (call_with_disposed init parent c Hi Hp w Hn)
      as (Hn' & evs & Htr & Hev).
    destruct (IH _ Hn') as (Hs & evs' & Htr' & Hev').
    split; [done|]. exists (evs ++ evs').
    by rewrite Htr', Htr, <- app_assoc, List.filter_app, Hev, Hev'. }
  destruct (Hi _ Hs) as (Hn1 & evs1 & Htr1 & Hev1).
  rewrite (start_with_disposed init _ Hn1). simpl.
  split_and!; [done|done| | |].
  - by destruct (init _).2 as [[]| |].
  - by intros ->.
  - by rewrite (new_events_app _ _ _ Htr1).
Qed.

End Reachable.

(** ** The options handed to the chart *)

Section Options.
Context {V : Type}.
Implicit Types (o : option (gmap string V)) (k : string).

(** X18: in the options that [setOption] hands to the chart, a key given
    in the call's [opts] has the value from [opts]; any other key has the
    value stored in [optionOpts], if any.  A missing [opts] or [optionOpts]
    counts as empty. *)
Theorem newOpts_lookup (optionOpts opts : option (gmap string V)) k :
  newOpts optionOpts opts !! k =
  match opts ≫= (λ m, m !! k) with
  | Some v => Some v
  | None => optionOpts ≫= (λ m, m !! k)
  end.
Proof.
  unfold newOpts, object_assign. simpl.
  destruct opts as [m2|], optionOpts as [m1|]; simpl;
    rewrite ?lookup_union, ?lookup_empty;
    repeat match goal with |- context [?m !! k] =>
      is_var m; destruct (m !! k) end; done.
Qed.

End Options.

(* ================================================================== *)
(** * Part III: the properties on the concrete engine *)
(* ================================================================== *)

Module DemoFacts.
Import Demo.
#[local] Existing Instance countdown.
#[local] Existing Instance lib.

Lemma three_clips_list : clip_list three_clips [1; 2; 3].
Proof.
  split_and!; [done|done|].
  split; [repeat (constructor; [set_solver|]); constructor|].
  intros [|[|[|i]]] c Hi; simplify_eq/=; by vm_compute.
Qed.



(** C1, counterexample: [started] has no callback, and its driver is running
    with three clips to step.  The engine advance for the tick steps them;
    the handler, given the same tick, steps none and leaves the world as the
    timeline delivered it. *)
Lemma handler_skips_advance :
  userCallback (this started) = None
  ∧ stepped (new_events started
               (deliver (echartsUpdate Ref) [(16, 16)%float] started).1)
    = [1; 2; 3]
  ∧ deliver updateCallback [(16, 16)%float] started
    = (set_timeline (mkTimeline 16 16) started, Ok tt).
Proof. split_and!; by vm_compute. Qed.

Lemma handler_idle_without_callback_witness :
  ∃ w',
    deliver updateCallback four_ticks started = (w', Ok tt)
    ∧ this w' = this started
    ∧ engine w' = engine started
    ∧ trace w' = trace started.
Proof.
  apply (handler_idle_without_callback started four_ticks). reflexivity.
Defined.

(** C2, counterexample: [destroy()] raises when [start()] was never called.
    Called a second time it raises as well: at [this.chart.dispose()] when
    the parent teardown returns, and with the parent's error when that
    throws. *)
Lemma destroy_is_not_a_no_op :
  (destroy fresh).2 =
    Throw (TypeError "Cannot read properties of undefined (reading 'dispose')")
  ∧ (destroy active).2 = Ok tt
  ∧ (destroy_with (emit (EvExt "super.destroy")) (destroy active).1).2 =
    Throw (TypeError "Cannot read properties of null (reading 'dispose')")
  ∧ (destroy_with torn_down (destroy active).1).2 =
    Throw (TypeError "Cannot read properties of null (reading 'destroy')").
Proof. split_and!; by vm_compute. Qed.

Lemma destroy_requires_chart_witness :
  (destroy_with torn_down (destroy active).1).2 ≠ Ok tt
  ∧ (destroy_with torn_down (destroy active).1).1 =
      set_trace (trace (destroy active).1
                   ++ [EvExt "TimelineUpdate.removeFrameCallback"])
        (destroy active).1.
Proof.
  destruct (destroy_requires_chart torn_down (destroy active).1)
    as (Hr & Hw & _).
  - intros w1. reflexivity.
  - right. exists (emit (EvExt "super.destroy")), active.
    vm_compute. reflexivity.
  - split; [exact Hr|]. rewrite Hw. reflexivity.
Defined.

Lemma stale_tick_after_destroy_witness :
  updateCallback 16 16 (destroy active).1 = ((destroy active).1, Ok tt).
Proof.
  apply (stale_tick_after_destroy active (destroy active).1 16 16).
  vm_compute. reflexivity.
Defined.



Lemma update_single_pass_witness :
  ∃ w' ch',
    animation_update None started = (w', Ok tt)
    ∧ engine w' = Some ch'
    ∧ stepped (new_events started w') = [1; 2; 3]
    ∧ clip_list (_zr_animation ch') [2].
Proof.
  destruct (update_single_pass started chart0 [1; 2; 3] None)
    as (w' & ch' & Hrun & He & _ & Hs & _ & Hcl & _);
    [reflexivity|reflexivity|apply three_clips_list|].
  exists w', ch'. split_and!; [exact Hrun|exact He|exact Hs|exact Hcl].
Defined.

Lemma update_frame_notification_witness :
  ∃ w',
    animation_update None started = (w', Ok tt)
    ∧ List.filter is_frame_notice (new_events started w') =
        [EvOnframe 0; EvTrigger "frame" 0; EvStageUpdate].
Proof.
  destruct (update_frame_notification started chart0 [1; 2; 3] None)
    as (w' & Hrun & _ & _ & Hn & _);
    [reflexivity|reflexivity|apply three_clips_list|].
  exists w'. split; [exact Hrun|exact Hn].
Defined.

Lemma fixZrender_idempotent_witness :
  (fixZrender (fixZrender raw).1).1 = (fixZrender raw).1.
Proof.
  destruct (fixZrender_idempotent raw (mkChart three_clips false) [1; 2; 3])
    as (_ & _ & H & _);
    [reflexivity|apply three_clips_list|].
  exact H.
Defined.

Lemma start_invokes_callback_once_witness :
  fires (new_events eager (start eager).1) = [0%float]
  ∧ (start eager).2 = Ok tt.
Proof.
  destruct (start_invokes_callback_once eager quiet)
    as (_ & Hf & _ & Hr); [reflexivity|reflexivity|discriminate|].
  split; [exact Hf|exact Hr].
Defined.

End DemoFacts.

(** ** The further properties on the concrete engine *)

Module DemoMore.
Import Demo.
#[local] Existing Instance countdown.
#[local] Existing Instance lib.

Lemma start_without_flag_witness :
  ∃ w', start fresh = (w', Ok tt)
        ∧ fires (new_events fresh w') = []
        ∧ chart (this w') = Ref.
Proof.
  destruct (start_without_flag fresh) as (w' & Hrun & _ & Hf & _ & Ht & _);
    [reflexivity|discriminate|].
  exists w'. split_and!; [exact Hrun|exact Hf|by rewrite Ht].
Defined.

Lemma start_flag_without_callback_witness :
  ∃ w', start hasty =
          (w', Throw (TypeError "this.userCallback is not a function"))
        ∧ chart (this w') = Ref.
Proof.
  destruct (start_flag_without_callback hasty)
    as (w' & Hrun & _ & Hc & _); [reflexivity|reflexivity|discriminate|].
  exists w'. split; [exact Hrun|exact Hc].
Defined.

Lemma tick_without_chart_witness :
  updateCallback 16 16 rearmed = (rearmed, Throw (cannot_read Null "_zr")).
Proof.
  apply (tick_without_chart rearmed quiet 16 16); [reflexivity|discriminate].
Defined.

Lemma callback_throws_witness :
  (updateCallback 1500 1500 fragile).2 = Throw (UserError "callback failed")
  ∧ time (this (updateCallback 1500 1500 fragile).1) = 1500%float.
Proof.
  destruct (callback_throws fragile failing 1200 chart0 [1; 2; 3] 1500 1500
              (UserError "callback failed"))
    as (Hr & Ht & _);
    [reflexivity|reflexivity|reflexivity|reflexivity|reflexivity
    |apply DemoFacts.three_clips_list|reflexivity|reflexivity|].
  split; [exact Hr|exact Ht].
Defined.

Lemma callback_after_advance_witness :
  ∃ w1 ch1,
    echartsUpdate Ref 1500 1500 active = (w1, Ok tt)
    ∧ engine w1 = Some ch1
    ∧ engine (updateCallback 1500 1500 active).1 = Some (quiet ch1).1.
Proof.
  destruct (callback_after_advance active quiet 1200 chart0 [1; 2; 3]
              1500 1500)
    as (w1 & ch1 & Hadv & He & _ & He' & _);
    [reflexivity|reflexivity|reflexivity|reflexivity|reflexivity
    |apply DemoFacts.three_clips_list|reflexivity|].
  exists w1, ch1. split_and!; [exact Hadv|exact He|exact He'].
Defined.

Lemma steps_use_ambient_clock_witness :
  updateCallback 99 500 active = updateCallback 16 500 active
  ∧ stepped (new_events active (updateCallback 16 1500 active).1) =
    stepped (new_events active (updateCallback 16 500 active).1).
Proof.
  destruct (steps_use_ambient_clock active quiet 1200 chart0 [1; 2; 3] 16 500)
    as (_ & Ht & Hd);
    [reflexivity|reflexivity|reflexivity|reflexivity|reflexivity
    |apply DemoFacts.three_clips_list|].
  split; [exact (Ht 99%float)|exact (Hd 1500%float)].
Defined.

Lemma paused_engine_tick_witness :
  updateCallback 500 500 frozen =
    (set_this (set_time 500 (this frozen)) frozen, Ok tt).
Proof.
  rewrite (paused_engine_tick frozen quiet 1200 frozen_chart 500 500);
    reflexivity.
Defined.

Lemma advance_without_clips_witness :
  new_events bare (animation_update None bare).1 =
    [EvOnframe 0; EvTrigger "frame" 0; EvStageUpdate]
  ∧ animation_update (Some true) bare = (bare, Ok tt).
Proof.
  destruct (advance_without_clips bare
              (mkChart (mkAnimation true false None None ∅ true Patched Patched)
                       false) None) as (_ & Hev & _);
    [reflexivity|reflexivity|reflexivity|].
  destruct (advance_without_clips bare
              (mkChart (mkAnimation true false None None ∅ true Patched Patched)
                       false) (Some true)) as (_ & _ & Hw);
    [reflexivity|reflexivity|reflexivity|].
  split; [exact Hev|exact (Hw eq_refl)].
Defined.

Lemma closing_clips_list : clip_list closing_clips [1; 3].
Proof.
  split_and!; [done|done|].
  split; [repeat (constructor; [set_solver|]); constructor|].
  intros [|[|i]] c Hi; simplify_eq/=; by vm_compute.
Qed.

Lemma closing_clips_plain c :
  c ∈ [1; 3] → snd <$> behaviour (clips closing_clips) c = Some false.
Proof. intros Hc. assert (c = 1 ∨ c = 3) as [->| ->] by set_solver; done. Qed.

Lemma advance_all_finish_witness :
  ∃ w' ch', animation_update (Some true) closing = (w', Ok tt)
            ∧ engine w' = Some ch'
            ∧ new_events closing w' =
                [EvClipStep 1 0 0; EvRemoveClip 1;
                 EvClipStep 3 0 0; EvRemoveClip 3]
            ∧ _clipsHead (_zr_animation ch') = None
            ∧ _clipsTail (_zr_animation ch') = None.
Proof.
  destruct (advance_all_finish closing (mkChart closing_clips false) [1; 3]
              (Some true))
    as (w' & ch' & Hrun & He & Hs & Hh & Ht & _);
    [reflexivity|reflexivity|apply closing_clips_list|reflexivity
    |apply closing_clips_plain| |].
  - intros c Hc.
    assert (c = 1 ∨ c = 3) as [->| ->] by set_solver; reflexivity.
  - exists w', ch'. split_and!; [exact Hrun|exact He|exact Hs|exact Hh|exact Ht].
Defined.

Lemma advance_keeps_objects_witness :
  ∃ w' ch', animation_update (Some true) closing = (w', Ok tt)
            ∧ engine w' = Some ch'
            ∧ dom (clips (_zr_animation ch')) = dom (clips closing_clips).
Proof.
  destruct (advance_keeps_objects closing (mkChart closing_clips false) [1; 3]
              (Some true))
    as (w' & ch' & Hrun & He & _ & _ & _ & _ & _ & Hd & _);
    [reflexivity|reflexivity|apply closing_clips_list|reflexivity
    |apply closing_clips_plain|].
  exists w', ch'. split_and!; [exact Hrun|exact He|exact Hd].
Defined.

Lemma destroy_started_ok_witness :
  ∃ w', destroy active = (w', Ok tt)
        ∧ new_events active w' = destroy_prefix ++ [EvExt "chart.dispose"].
Proof.
  destruct (destroy_started_ok active chart0)
    as (w' & Hrun & Hev & _); [reflexivity|reflexivity|].
  exists w'. split; [exact Hrun|exact Hev].
Defined.

Lemma disposed_is_final_witness :
  updateCallback_slot
    (this (run_api_with start_init (emit (EvExt "super.destroy"))
             [ApiUpdate quiet None; ApiStart; ApiDestroy; ApiTick 16 16]
             (destroy active).1)) = NullMethod
  ∧ (start_with start_init
       (run_api_with start_init (emit (EvExt "super.destroy"))
          [ApiUpdate quiet None; ApiStart; ApiDestroy; ApiTick 16 16]
          (destroy active).1)).2 ≠ Ok tt.
Proof.
  destruct (disposed_is_final start_init (emit (EvExt "super.destroy"))
              (emit (EvExt "super.destroy")) active (destroy active).1
              [ApiUpdate quiet None; ApiStart; ApiDestroy; ApiTick 16 16])
    as (Hs & _ & Hr & _);
    [apply kd_start_init|apply kd_super_destroy|by vm_compute|].
  split; [exact Hs|exact Hr].
Defined.

End DemoMore.
